(** * Wearable companion device: input-source runtime and display controller

    A shallow embedding of [src/inputs/base_input.py] ([InputData],
    [BaseInput]) and of [src/display/display_controller.py]
    ([DisplayController]), with the properties of the data lifecycle, the
    update loop, the listener fan-out, the timed display task and the text
    layout.

    Conventions.
    - A [datetime] is an integer number of seconds on the wall clock; every
      call of [datetime.now()] in the source becomes an explicit argument.
    - Methods that log, schedule tasks, call hooks or raise live in the
      monad [M]: a state transformer over the object that also yields the
      list of effects it performed and either a value or a raised
      exception.  State changes made before a raise persist, as mutation of
      a Python object does. *)

From Stdlib Require Import ZArith List String Ascii Bool Lia.
From Stdlib Require DecimalString DecimalPos DecimalZ.
Import ListNotations.
Local Open Scope Z_scope.
Local Open Scope string_scope.

(** ** Time *)

Definition datetime := Z.

(** ** base_input.py *)

Module base_input.

(** *** class InputData *)

(** [content] is an opaque payload ([Any] in the source); the derived [id]
    string is a function of [source], [data_type] and [timestamp] and is
    not stored. *)
Record InputData := mkInputData {
  source : string;
  data_type : string;
  content : string;
  timestamp : datetime;
  priority : Z;
  expires_at : option datetime
}.

(** [InputData.__init__]: [timestamp or datetime.now()]. *)
Definition InputData_init (now : datetime) (src ty payload : string)
    (ts : option datetime) (prio : Z) (exp : option datetime) : InputData :=
  mkInputData src ty payload
    (match ts with Some t => t | None => now end) prio exp.

(** [InputData.is_expired], with [datetime.now()] given as [now]. *)
Definition is_expired (now : datetime) (d : InputData) : bool :=
  match expires_at d with
  | None => false
  | Some e => now >? e
  end.

(** *** Effects and exceptions *)

Inductive TaskBody :=
| UpdateLoop                                  (* self._update_loop() *)
| ListenerCoroutine (cb : nat) (d : InputData). (* callback(data) of an async listener *)

Inductive Event :=
| LogInfo (msg : string)
| LogError (msg : string)
| LogDebug (msg : string)
| CreateTask (body : TaskBody)       (* asyncio.create_task *)
| Called (cb : nat) (d : InputData)  (* callback(data) was evaluated *)
| CleanupHook                        (* await self._cleanup() *)
| Sleep (seconds : Z).               (* await asyncio.sleep *)

(** How a method ends: it returns, or an instance of [Exception] with
    text [e] is raised.  (What is raised and is no instance of
    [Exception] is the subject of [Exc] further down.) *)
Inductive result (A : Type) :=
| Return (a : A)
| Raise (e : string).
Arguments Return {A} a.
Arguments Raise {A} e.

(** An ordinary registered listener: one whose call returns or raises an
    instance of [Exception], whose coroutine [asyncio.create_task] accepts,
    and which leaves the source alone while it runs.  [cb_call d] tells
    whether evaluating [callback(data)] raises: for a plain function this
    is running it, for a coroutine function it is only building the
    coroutine object, whose body runs later in the task created for it.
    Listeners without these restrictions (a [KeyboardInterrupt] or an
    [asyncio.CancelledError], no running event loop, a listener that
    registers listeners) are the [Listener]s defined further down, where
    the ordinary ones are shown to be a special case. *)
Record Callback := mkCallback {
  cb_id : nat;
  cb_is_coroutine : bool;
  cb_call : InputData -> option string
}.

(** *** class BaseInput *)

Record BaseInput := mkBaseInput {
  name : string;
  enabled : bool;
  update_interval : Z;
  running : bool;
  last_update : option datetime;
  error_count : Z;
  max_errors : Z;
  current_data : list InputData;
  data_listeners : list Callback
}.

(** [BaseInput.__init__]; the three [config.get] lookups are given with
    their defaults already applied by [config_get]. *)
Definition config_get {A} (v : option A) (default : A) : A :=
  match v with Some x => x | None => default end.

Definition BaseInput_init (nm : string) (cfg_enabled : option bool)
    (cfg_update_interval cfg_max_errors : option Z) : BaseInput :=
  {| name := nm;
     enabled := config_get cfg_enabled true;
     update_interval := config_get cfg_update_interval 60;
     running := false;
     last_update := None;
     error_count := 0;
     max_errors := config_get cfg_max_errors 5;
     current_data := [];
     data_listeners := [] |}.

Definition set_running (b : bool) (s : BaseInput) : BaseInput :=
  mkBaseInput (name s) (enabled s) (update_interval s) b (last_update s)
    (error_count s) (max_errors s) (current_data s) (data_listeners s).

Definition set_last_update (t : option datetime) (s : BaseInput) : BaseInput :=
  mkBaseInput (name s) (enabled s) (update_interval s) (running s) t
    (error_count s) (max_errors s) (current_data s) (data_listeners s).

Definition set_error_count (n : Z) (s : BaseInput) : BaseInput :=
  mkBaseInput (name s) (enabled s) (update_interval s) (running s)
    (last_update s) n (max_errors s) (current_data s) (data_listeners s).

Definition set_current_data (l : list InputData) (s : BaseInput) : BaseInput :=
  mkBaseInput (name s) (enabled s) (update_interval s) (running s)
    (last_update s) (error_count s) (max_errors s) l (data_listeners s).

Definition set_data_listeners (l : list Callback) (s : BaseInput) : BaseInput :=
  mkBaseInput (name s) (enabled s) (update_interval s) (running s)
    (last_update s) (error_count s) (max_errors s) (current_data s) l.

(** *** The method monad *)

Definition M (A : Type) : Type := BaseInput -> result A * BaseInput * list Event.

Definition ret {A} (a : A) : M A := fun s => (Return a, s, []).

Definition bind {A B} (m : M A) (k : A -> M B) : M B :=
  fun s =>
    match m s with
    | (Return a, s1, ev1) =>
        match k a s1 with
        | (r, s2, ev2) => (r, s2, (ev1 ++ ev2)%list)
        end
    | (Raise e, s1, ev1) => (Raise e, s1, ev1)
    end.

Definition raise {A} (e : string) : M A := fun s => (Raise e, s, []).

(** [try: body except Exception as e: handler(e)] *)
Definition try_except {A} (body : M A) (handler : string -> M A) : M A :=
  fun s =>
    match body s with
    | (Return a, s1, ev1) => (Return a, s1, ev1)
    | (Raise e, s1, ev1) =>
        match handler e s1 with
        | (r, s2, ev2) => (r, s2, (ev1 ++ ev2)%list)
        end
    end.

Definition get : M BaseInput := fun s => (Return s, s, []).
Definition modify (f : BaseInput -> BaseInput) : M unit :=
  fun s => (Return tt, f s, []).
Definition emit (e : Event) : M unit := fun s => (Return tt, s, [e]).

Declare Scope method_scope.
Delimit Scope method_scope with method.
Notation "x <- m1 ;; m2" := (bind m1 (fun x => m2))
  (at level 61, m1 at next level, right associativity) : method_scope.
Notation "m1 ;; m2" := (bind m1 (fun _ => m2))
  (at level 61, right associativity) : method_scope.
Local Open Scope method_scope.

(** [for x in xs: body(x)] *)
Fixpoint for_each {A} (xs : list A) (body : A -> M unit) : M unit :=
  match xs with
  | [] => ret tt
  | x :: rest => body x ;; for_each rest body
  end.

(** The parts of the outcome of a run: value or status, state, effects. *)
Definition result_of {X} (r : X * BaseInput * list Event) : X := fst (fst r).
Definition state_of {X} (r : X * BaseInput * list Event) : BaseInput := snd (fst r).
Definition events_of {X} (r : X * BaseInput * list Event) : list Event := snd r.

(** *** Reads *)

Definition same_key (a b : InputData) : bool :=
  (source a =? source b) && (data_type a =? data_type b).

(** [BaseInput.get_current_data]: [if data_type:] is false for [None] and
    for the empty string. *)
Definition get_current_data (ty : option string) (s : BaseInput)
  : list InputData :=
  match ty with
  | None => current_data s
  | Some k =>
      if k =? "" then current_data s
      else filter (fun d => data_type d =? k) (current_data s)
  end.

(** Python's [max(xs, key=...)] on a non-empty list: the running best is
    replaced only by a strictly greater key. *)
Fixpoint max_by_timestamp (best : InputData) (xs : list InputData) : InputData :=
  match xs with
  | [] => best
  | x :: rest =>
      if timestamp x >? timestamp best then max_by_timestamp x rest
      else max_by_timestamp best rest
  end.

(** [BaseInput.get_latest_data] *)
Definition get_latest_data (ty : string) (s : BaseInput) : option InputData :=
  match get_current_data (Some ty) s with
  | [] => None
  | x :: rest => Some (max_by_timestamp x rest)
  end.

(** *** Listeners *)

(** [BaseInput.add_data_listener] *)
Definition add_data_listener (cb : Callback) : M unit :=
  modify (fun s => set_data_listeners (data_listeners s ++ [cb])%list s).

(** Evaluating [callback(data)]. *)
Definition call (cb : Callback) (d : InputData) : M unit :=
  emit (Called (cb_id cb) d) ;;
  match cb_call cb d with
  | Some e => raise e
  | None => ret tt
  end.

(** [logger.error(f"Error notifying listener in {self.name}: {e}")] *)
Definition listener_error (nm e : string) : Event :=
  LogError ("Error notifying listener in " ++ nm ++ ": " ++ e).

(** The body of the [for] loop of [_notify_listeners]. *)
Definition notify_one (nm : string) (d : InputData) (cb : Callback) : M unit :=
  try_except
    (if cb_is_coroutine cb then
       call cb d ;;
       emit (CreateTask (ListenerCoroutine (cb_id cb) d))
     else
       call cb d)
    (fun e => emit (listener_error nm e)).

(** [BaseInput._notify_listeners] *)
Definition _notify_listeners (d : InputData) : M unit :=
  s <- get ;;
  for_each (data_listeners s) (notify_one (name s) d).

(** *** Writes *)

(** [BaseInput._clean_expired_data], with the clock reading [now]. *)
Definition _clean_expired_data (now : datetime) : M unit :=
  modify (fun s =>
    set_current_data (filter (fun d => negb (is_expired now d)) (current_data s)) s).

(** [BaseInput.add_data] *)
Definition add_data (d : InputData) : M unit :=
  modify (fun s =>
    set_current_data (filter (fun x => negb (same_key x d)) (current_data s)) s) ;;
  modify (fun s => set_current_data (current_data s ++ [d])%list s) ;;
  _notify_listeners d.

(** *** Life cycle *)

(** [BaseInput.start] *)
Definition start : M unit :=
  s <- get ;;
  if negb (enabled s) then
    emit (LogInfo ("Input module " ++ name s ++ " is disabled"))
  else
    emit (LogInfo ("Starting input module: " ++ name s)) ;;
    modify (set_running true) ;;
    emit (CreateTask UpdateLoop).

(** [BaseInput.stop]; the body of the [_cleanup] hook belongs to the
    subclass ([pass] in [BaseInput], one log line in [TimeInput]); its
    invocation is recorded. *)
Definition stop : M unit :=
  s <- get ;;
  emit (LogInfo ("Stopping input module: " ++ name s)) ;;
  modify (set_running false) ;;
  emit CleanupHook.

(** [BaseInput._should_update] *)
Definition _should_update (now : datetime) (s : BaseInput) : bool :=
  match last_update s with
  | None => true
  | Some t => now - t >=? update_interval s
  end.

(** What one call of the abstract [_fetch_data] does to its [BaseInput]:
    it hands some records to [add_data] and then returns or raises. *)
Inductive FetchOutcome :=
| FetchOk (added : list InputData)
| FetchRaises (added : list InputData) (e : string).

Definition _fetch_data (o : FetchOutcome) : M unit :=
  match o with
  | FetchOk added => for_each added add_data
  | FetchRaises added e => for_each added add_data ;; raise e
  end.

(** The environment of one pass through the loop body: the clock when
    [_should_update] reads it, the clock after the fetch (stored in
    [last_update] and used by the pruning pass), and the behaviour of the
    fetch step should it be invoked. *)
Record Tick := mkTick {
  tk_now : datetime;
  tk_after : datetime;
  tk_fetch : FetchOutcome
}.

(** The body of [while self.running:] in [_update_loop]; the value tells
    whether [break] was executed. *)
Definition loop_body (tk : Tick) : M bool :=
  try_except
    (s <- get ;;
     (if _should_update (tk_now tk) s then
        _fetch_data (tk_fetch tk) ;;
        modify (set_last_update (Some (tk_after tk))) ;;
        modify (set_error_count 0)
      else ret tt) ;;
     _clean_expired_data (tk_after tk) ;;
     s1 <- get ;;
     emit (Sleep (Z.min (update_interval s1) 10)) ;;
     ret false)
    (fun e =>
       modify (fun s => set_error_count (error_count s + 1) s) ;;
       s <- get ;;
       emit (LogError ("Error in " ++ name s ++ " update loop: " ++ e)) ;;
       if error_count s >=? max_errors s then
         emit (LogError ("Max errors reached for " ++ name s ++ ", stopping")) ;;
         modify (set_running false) ;;
         ret true
       else
         emit (Sleep 30) ;;
         ret false).

(** How a run of the loop over a finite supply of ticks ends: the [while]
    was left, or the task is still alive when the supply is used up. *)
Inductive LoopStatus := LoopExited | LoopAlive.

(** [BaseInput._update_loop] *)
Fixpoint _update_loop (ticks : list Tick) (s : BaseInput)
  : LoopStatus * BaseInput * list Event :=
  if running s then
    match ticks with
    | [] => (LoopAlive, s, [])
    | tk :: rest =>
        match loop_body tk s with
        | (Return true, s1, ev1) => (LoopExited, s1, ev1)
        | (Return false, s1, ev1) =>
            match _update_loop rest s1 with
            | (st, s2, ev2) => (st, s2, (ev1 ++ ev2)%list)
            end
        | (Raise _, s1, ev1) => (LoopExited, s1, ev1)
        end
    end
  else (LoopExited, s, []).

End base_input.

(** ** display_controller.py *)

Module display_controller.

(** *** The display device and what is painted on it *)

Inductive Font := font_small | font_medium | font_large.

Inductive DrawOp :=
| DrawText (x y : Z) (line : string) (font : Font) (fill : Z)
| DrawRectangle (box : Z * Z * Z * Z) (outline fill : Z).

(** The collaborators behind [self.device] and the [draw] object of a
    [canvas] block: the device's bounding box and the text measurement
    [draw.textbbox((0, 0), line, font=font)]. *)
Record Device := mkDevice {
  bounding_box : Z * Z * Z * Z;
  textbbox : Font -> string -> Z * Z * Z * Z
}.

(** What the display shows: the drawing of the last [canvas] block on a
    real device, or the last line of the simulation log when
    [self.device] is [None]. *)
Inductive Screen :=
| Unpainted
| Painted (ops : list DrawOp)
| SimText (font_size text : string)
| SimCleared.

(** *** The timed display task *)

(** The coroutine [_show_text_with_duration] as a task of the event loop:
    created and not yet started, suspended in [asyncio.sleep] until a
    deadline, finished, or cancelled. *)
Inductive TaskState :=
| Created
| Sleeping (deadline : Z)
| Finished
| Cancelled.

(** [t_must_cancel]: [Task.cancel()] was called and [CancelledError] is
    thrown into the coroutine when the event loop next resumes it. *)
Record DisplayTask := mkDisplayTask {
  t_text : string;
  t_font_size : string;
  t_position : option (Z * Z);
  t_duration : Z;
  t_center : bool;
  t_state : TaskState;
  t_must_cancel : bool
}.

(** *** class DisplayController *)

(** [current_task] is a handle: the index of the task in the event loop. *)
Record DisplayController := mkDisplayController {
  device : option Device;
  width : Z;
  height : Z;
  brightness : Z;
  current_task : option nat
}.

(** The controller together with the event loop it runs in. *)
Record World := mkWorld {
  self : DisplayController;
  tasks : list DisplayTask;
  screen : Screen;
  clock : Z
}.

Definition set_current_task (h : option nat) (c : DisplayController)
  : DisplayController :=
  mkDisplayController (device c) (width c) (height c) (brightness c) h.

Definition set_brightness_field (b : Z) (c : DisplayController)
  : DisplayController :=
  mkDisplayController (device c) (width c) (height c) b (current_task c).

Definition set_screen (sc : Screen) (w : World) : World :=
  mkWorld (self w) (tasks w) sc (clock w).

Definition set_tasks (ts : list DisplayTask) (w : World) : World :=
  mkWorld (self w) ts (screen w) (clock w).

Definition set_self (c : DisplayController) (w : World) : World :=
  mkWorld c (tasks w) (screen w) (clock w).

Definition set_state (st : TaskState) (t : DisplayTask) : DisplayTask :=
  mkDisplayTask (t_text t) (t_font_size t) (t_position t) (t_duration t)
    (t_center t) st (t_must_cancel t).

Definition set_must_cancel (t : DisplayTask) : DisplayTask :=
  mkDisplayTask (t_text t) (t_font_size t) (t_position t) (t_duration t)
    (t_center t) (t_state t) true.

Fixpoint update_nth {A} (n : nat) (f : A -> A) (l : list A) : list A :=
  match l, n with
  | [], _ => []
  | x :: r, O => f x :: r
  | x :: r, S m => x :: update_nth m f r
  end.

(** [DisplayController.__init__] (a 128x64 display, no task) followed by
    [initialize], which leaves [self.device] set on hardware and [None] in
    simulation mode; the rotation and the bus settings play no part in
    what follows. *)
Definition DisplayController_init (cfg_brightness : option Z)
    (dev : option Device) : DisplayController :=
  {| device := dev; width := 128; height := 64;
     brightness := match cfg_brightness with Some b => b | None => 255 end;
     current_task := None |}.

Definition initial_world (c : DisplayController) : World :=
  {| self := c; tasks := []; screen := Unpainted; clock := 0 |}.

(** *** Layout *)

Definition newline : ascii := "010"%char.

(** [text.split('\n')] *)
Fixpoint split_lines (text : string) : list string :=
  match text with
  | EmptyString => [EmptyString]
  | String c rest =>
      if Ascii.eqb c newline then EmptyString :: split_lines rest
      else match split_lines rest with
           | [] => [String c EmptyString]
           | l :: ls => String c l :: ls
           end
  end.

(** [enumerate(lines)], counting from [i]. *)
Fixpoint enumerate_from {A} (i : Z) (l : list A) : list (Z * A) :=
  match l with
  | [] => []
  | x :: r => (i, x) :: enumerate_from (i + 1) r
  end.

(** [font_map.get(font_size, self.font_medium)] *)
Definition select_font (font_size : string) : Font :=
  if font_size =? "small" then font_small
  else if font_size =? "medium" then font_medium
  else if font_size =? "large" then font_large
  else font_medium.

(** [bbox[2] - bbox[0]] of [draw.textbbox((0, 0), line, font=font)] *)
Definition text_width (dev : Device) (font : Font) (line : string) : Z :=
  let '(x0, _, x1, _) := textbbox dev font line in x1 - x0.

(** The approximate line height the source uses. *)
Definition line_height : Z := 15.

(** [DisplayController._draw_text]: the [draw.text] calls it makes. *)
Definition _draw_text (c : DisplayController) (dev : Device) (text : string)
    (font : Font) (position : option (Z * Z)) (center : bool) : list DrawOp :=
  let lines := split_lines text in
  match center, position with
  | true, None =>
      let total_height := Z.of_nat (List.length lines) * line_height in
      let start_y := (height c - total_height) / 2 in
      map (fun il : Z * string =>
             let (i, line) := il in
             let x := (width c - text_width dev font line) / 2 in
             let y := start_y + i * line_height in
             DrawText x y line font 255)
          (enumerate_from 0 lines)
  | _, _ =>
      let (x, y) := match position with Some p => p | None => (0, 0) end in
      map (fun il : Z * string =>
             let (i, line) := il in
             DrawText x (y + i * line_height) line font 255)
          (enumerate_from 0 lines)
  end.

(** [DisplayController._render_text]: what ends up on the display. *)
Definition rendering (c : DisplayController) (text font_size : string)
    (position : option (Z * Z)) (center : bool) : Screen :=
  match device c with
  | Some dev => Painted (_draw_text c dev text (select_font font_size) position center)
  | None => SimText font_size text
  end.

Definition _render_text (text font_size : string) (position : option (Z * Z))
    (center : bool) (w : World) : World :=
  set_screen (rendering (self w) text font_size position center) w.

(** [DisplayController.clear] *)
Definition cleared (c : DisplayController) : Screen :=
  match device c with
  | Some dev => Painted [DrawRectangle (bounding_box dev) 0 0]
  | None => SimCleared
  end.

Definition clear (w : World) : World := set_screen (cleared (self w)) w.

(** *** Tasks *)

(** [Task.done()] *)
Definition task_done (t : DisplayTask) : bool :=
  match t_state t with
  | Finished | Cancelled => true
  | Created | Sleeping _ => false
  end.

(** [if self.current_task and not self.current_task.done():
        self.current_task.cancel()] *)
Definition cancel_current (w : World) : World :=
  match current_task (self w) with
  | None => w
  | Some h =>
      match nth_error (tasks w) h with
      | None => w
      | Some t =>
          if negb (task_done t)
          then set_tasks (update_nth h set_must_cancel (tasks w)) w
          else w
      end
  end.

(** [if duration:] is false for [None] and for zero. *)
Definition truthy (duration : option Z) : bool :=
  match duration with
  | None => false
  | Some d => negb (d =? 0)%Z
  end.

(** [DisplayController.show_text] *)
Definition show_text (text font_size : string) (position : option (Z * Z))
    (duration : option Z) (center : bool) (w : World) : World :=
  let w1 := cancel_current w in
  if truthy duration then
    let d := match duration with Some d => d | None => 0 end in
    let t := mkDisplayTask text font_size position d center Created false in
    let h := List.length (tasks w1) in
    set_self (set_current_task (Some h) (self w1))
      (set_tasks (tasks w1 ++ [t])%list w1)
  else
    _render_text text font_size position center w1.

(** [DisplayController.shutdown] (the GPIO cleanup is not part of the
    model). *)
Definition shutdown (w : World) : World := clear (cancel_current w).

(** [DisplayController.set_brightness] *)
Definition set_brightness (b : Z) (w : World) : World :=
  set_self (set_brightness_field (Z.max 0 (Z.min 255 b)) (self w)) w.

(** The event loop resumes task [h] and runs it to its next suspension
    point: [_show_text_with_duration] renders and goes to sleep, or wakes
    up after its deadline and clears; a task with a pending cancellation
    gets [CancelledError] instead, which the coroutine does not catch. *)
Definition run_task (h : nat) (w : World) : World :=
  match nth_error (tasks w) h with
  | None => w
  | Some t =>
      if task_done t then w
      else if t_must_cancel t then
        set_tasks (update_nth h (set_state Cancelled) (tasks w)) w
      else
        match t_state t with
        | Created =>
            let w1 := _render_text (t_text t) (t_font_size t) (t_position t)
                        (t_center t) w in
            set_tasks (update_nth h (set_state (Sleeping (clock w + t_duration t)))
                         (tasks w1)) w1
        | Sleeping deadline =>
            if (clock w >=? deadline)%Z then
              let w1 := clear w in
              set_tasks (update_nth h (set_state Finished) (tasks w1)) w1
            else w
        | Finished | Cancelled => w
        end
  end.

(** Time passes. *)
Definition advance (dt : N) (w : World) : World :=
  mkWorld (self w) (tasks w) (screen w) (clock w + Z.of_N dt).

(** What can happen to a controller: calls of its methods by the
    application, and steps of the event loop. *)
Inductive Action :=
| AShow (text font_size : string) (position : option (Z * Z))
        (duration : option Z) (center : bool)
| AClear
| ASetBrightness (b : Z)
| AShutdown
| ARun (h : nat)
| ATick (dt : N).

Definition step (w : World) (a : Action) : World :=
  match a with
  | AShow text font_size position duration center =>
      show_text text font_size position duration center w
  | AClear => clear w
  | ASetBrightness b => set_brightness b w
  | AShutdown => shutdown w
  | ARun h => run_task h w
  | ATick dt => advance dt w
  end.

Definition run (acts : list Action) (w : World) : World :=
  fold_left step acts w.

(** Steps of the event loop, as opposed to calls by the application. *)
Definition is_loop_step (a : Action) : bool :=
  match a with
  | ARun _ | ATick _ => true
  | _ => false
  end.

End display_controller.

Import base_input.

(** ** Sequences of operations on the record collection *)

(** The state left by a method call. *)
Definition after {A} (m : M A) (s : BaseInput) : BaseInput := state_of (m s).

(** [add_data] called once for each record of [ds], in order. *)
Definition add_all (ds : list InputData) (s : BaseInput) : BaseInput :=
  fold_left (fun st d => after (add_data d) st) ds s.

(** The two operations that change [current_data]. *)
Inductive DataOp :=
| OpAdd (d : InputData)
| OpClean (now : datetime).

Definition apply_op (s : BaseInput) (op : DataOp) : BaseInput :=
  match op with
  | OpAdd d => after (add_data d) s
  | OpClean now => after (_clean_expired_data now) s
  end.

Definition apply_ops (ops : list DataOp) (s : BaseInput) : BaseInput :=
  fold_left apply_op ops s.

(** Does the operation replace the record [r]? *)
Definition supersedes (r : InputData) (op : DataOp) : bool :=
  match op with
  | OpAdd d => same_key r d
  | OpClean _ => false
  end.

Definition key (d : InputData) : string * string := (source d, data_type d).

(** The record of kind [k] that was handed to [add_data] last. *)
Definition last_added (k : string) (ds : list InputData) : option InputData :=
  find (fun d => data_type d =? k) (rev ds).

(** The listener calls among a list of effects, in order: the listener
    and the record it was given. *)
Definition deliveries (evs : list Event) : list (nat * InputData) :=
  flat_map (fun e => match e with Called cb d => [(cb, d)] | _ => [] end) evs.

(** The number of update loops launched and of cleanup hooks run among a
    list of effects. *)
Definition loops_launched (evs : list Event) : nat :=
  List.length (filter (fun e => match e with CreateTask UpdateLoop => true | _ => false end) evs).

Definition cleanups_run (evs : list Event) : nat :=
  List.length (filter (fun e => match e with CleanupHook => true | _ => false end) evs).

(** A pass through the loop body in which the fetch step is invoked and
    raises, and one in which it is invoked and returns. *)
Definition fetch_raises (o : FetchOutcome) : bool :=
  match o with
  | FetchRaises _ _ => true
  | FetchOk _ => false
  end.

Definition failing_tick (s : BaseInput) (tk : Tick) : bool :=
  _should_update (tk_now tk) s && fetch_raises (tk_fetch tk).

Definition succeeding_tick (s : BaseInput) (tk : Tick) : bool :=
  _should_update (tk_now tk) s && negb (fetch_raises (tk_fetch tk)).

(** ** Concrete scenarios *)

Definition fresh_input : BaseInput := BaseInput_init "time_input" None None None.

(** A clock reading added at second 0 that expires at second 120. *)
Definition time_record : InputData :=
  InputData_init 0 "time_input" "time" "12:00 PM" None 3 (Some 120).

Definition time_state : BaseInput := after (add_data time_record) fresh_input.

(** Two readings of one kind from two sources with one timestamp. *)
Definition gps_fix : InputData := mkInputData "gps" "position" "51.5,-0.1" 100 5 None.
Definition imu_fix : InputData := mkInputData "imu" "position" "51.5,-0.2" 100 5 None.

(** A reading with a late timestamp, to be followed by a reading of the
    same kind from another source. *)
Definition gps_late : InputData := mkInputData "gps" "position" "51.5,-0.3" 200 5 None.

(** A reading that never expires, then a later reading of the same source
    and kind that expires at second 60. *)
Definition old_reading : InputData := mkInputData "time_input" "time" "11:59 AM" 0 3 None.
Definition new_reading : InputData := mkInputData "time_input" "time" "12:00 PM" 10 3 (Some 60).

(** Three listeners: a plain function, a plain function that raises, and
    a coroutine function. *)
Definition quiet_listener : Callback := mkCallback 0 false (fun _ => None).
Definition faulty_listener : Callback := mkCallback 1 false (fun _ => Some "boom").
Definition async_listener : Callback := mkCallback 2 true (fun _ => None).

Definition listening_input : BaseInput :=
  after (add_data_listener async_listener)
    (after (add_data_listener faulty_listener)
       (after (add_data_listener quiet_listener) fresh_input)).

(** A source with [max_errors = 3] that has been started, and passes in
    which its fetch step raises or returns. *)
Definition flaky_input : BaseInput :=
  after start (BaseInput_init "sensor" None (Some 30) (Some 3)).

Definition bad_tick (t : datetime) : Tick := mkTick t t (FetchRaises [] "timeout").
Definition good_tick (t : datetime) : Tick := mkTick t t (FetchOk [time_record]).

(** ** The display controller and its event loop *)

Import display_controller.

(** A task that will paint nothing any more: it is done, or a
    cancellation is pending on it. *)
Definition dead (t : DisplayTask) : bool := task_done t || t_must_cancel t.

Definition all_dead (w : World) : Prop :=
  forall h t, nth_error (tasks w) h = Some t -> dead t = true.

(** Only the task the controller holds in [current_task] can still paint. *)
Definition only_current_alive (w : World) : Prop :=
  forall h t, nth_error (tasks w) h = Some t -> dead t = false ->
              current_task (self w) = Some h.

(** The controllers [c] and [c'] drive the same panel. *)
Definition same_panel (c c' : DisplayController) : Prop :=
  device c' = device c /\ width c' = width c /\ height c' = height c.

(** Task [hb] is the only one that can still paint; no cancellation is
    pending on it, it paints [sc], and [sc] is on the screen while it
    sleeps. *)
Definition guarded (hb : nat) (sc : Screen) (w : World) : Prop :=
  (forall h t, nth_error (tasks w) h = Some t -> h <> hb -> dead t = true) /\
  (forall t, nth_error (tasks w) hb = Some t ->
     t_must_cancel t = false /\
     rendering (self w) (t_text t) (t_font_size t) (t_position t) (t_center t) = sc /\
     (forall u, t_state t = Sleeping u -> screen w = sc)).

(** A real 128x64 panel whose font is six pixels wide per character, and
    the preemption scenario on it: "A" for two seconds, its task starts,
    one second passes, "B" without a duration, three more seconds pass and
    the event loop resumes the first task. *)
Definition panel : Device :=
  mkDevice (0, 0, 127, 63) (fun _ line => (0, 0, 6 * Z.of_nat (String.length line), 10)).

Definition controller : DisplayController := DisplayController_init None (Some panel).

Definition show_a : Action := AShow "A" "medium" None (Some 2) true.
Definition show_b : Action := AShow "B" "medium" None None true.

(** ** Further methods of base_input.py *)

(** [str(n)] of a Python integer. *)
Definition str_of_int (n : Z) : string :=
  DecimalString.NilZero.string_of_int (Z.to_int n).

(** [InputData.id], the f-string
    [{source}_{data_type}_{int(self.timestamp.timestamp())}].  The
    identifier keeps the whole seconds of the timestamp only: [units] is
    the number of clock units in a second (1000000 for the microseconds of
    a Python [datetime], 1 when the clock is read in whole seconds), and
    [int] truncates towards zero. *)
Definition InputData_id (units : Z) (d : InputData) : string :=
  source d ++ "_" ++ data_type d ++ "_" ++ str_of_int (Z.quot (timestamp d) units).

(** Does the character occur in the string? *)
Fixpoint occurs (c : ascii) (s : string) : bool :=
  match s with
  | EmptyString => false
  | String a r => Ascii.eqb a c || occurs c r
  end.

(** [BaseInput.get_status]; [isoformat] stands for [datetime.isoformat]. *)
Record Status := mkStatus {
  st_name : string;
  st_enabled : bool;
  st_running : bool;
  st_last_update : option string;
  st_error_count : Z;
  st_data_count : nat;
  st_update_interval : Z
}.

Definition get_status (isoformat : datetime -> string) (s : BaseInput) : Status :=
  {| st_name := name s;
     st_enabled := enabled s;
     st_running := running s;
     st_last_update := option_map isoformat (last_update s);
     st_error_count := error_count s;
     st_data_count := List.length (current_data s);
     st_update_interval := update_interval s |}.

(** Of the records of a list, those that no later record of the list
    shares its (source, data_type) with, in order. *)
Fixpoint keep_last (ds : list InputData) : list InputData :=
  match ds with
  | [] => []
  | d :: rest =>
      if existsb (same_key d) rest then keep_last rest else d :: keep_last rest
  end.

(** The durations of the [asyncio.sleep] calls among a list of effects. *)
Definition sleeps (evs : list Event) : list Z :=
  flat_map (fun e => match e with Sleep n => [n] | _ => [] end) evs.

(** The records a fetch step hands to [add_data]. *)
Definition fetched (o : FetchOutcome) : list InputData :=
  match o with
  | FetchOk added => added
  | FetchRaises added _ => added
  end.

(** ** Listeners in general *)

(** Whether a raised object is an instance of [Exception]:
    [KeyboardInterrupt], [SystemExit] and [asyncio.CancelledError] are
    not, and [except Exception] lets them pass. *)
Inductive ExcClass := OfException | OfBaseException.

(** A raised object: its class and its [str]. *)
Record Exc := mkExc { exc_class : ExcClass; exc_text : string }.

(** A listener without the restrictions of [Callback].  [ls_call] tells
    how evaluating [callback(data)] ends, [ls_task] how
    [asyncio.create_task] ends when it is handed the coroutine (it raises
    [RuntimeError] when no event loop is running), and [ls_registers]
    which listeners the call registers on the same source, with
    [add_data_listener], while it runs.  Other things a listener may do to
    the source are not represented. *)
#[local] Unset Elimination Schemes.
Inductive Listener := mkListener {
  ls_id : nat;
  ls_is_coroutine : bool;
  ls_call : InputData -> option Exc;
  ls_task : InputData -> option Exc;
  ls_registers : InputData -> list Listener
}.
#[local] Set Elimination Schemes.

(** The body of the [try] of [_notify_listeners] on one listener: the
    exception it ends with, if any, and its effects. *)
Definition attempt (d : InputData) (l : Listener) : option Exc * list Event :=
  match ls_call l d with
  | Some e => (Some e, [Called (ls_id l) d])
  | None =>
      if ls_is_coroutine l then
        match ls_task l d with
        | Some e => (Some e, [Called (ls_id l) d])
        | None => (None, [Called (ls_id l) d;
                          CreateTask (ListenerCoroutine (ls_id l) d)])
        end
      else (None, [Called (ls_id l) d])
  end.

(** The effects of one turn of the [for] loop that goes on to the next
    listener: those of the [try] body and, after an [Exception], the log
    line of the [except] branch. *)
Definition turn_events (nm : string) (d : InputData) (l : Listener) : list Event :=
  match attempt d l with
  | (None, evs) => evs
  | (Some e, evs) => (evs ++ [listener_error nm (exc_text e)])%list
  end.

(** How a pass over the listeners ends: the list is exhausted, an
    exception leaves [_notify_listeners], or the pass is still going on
    when the fuel is used up (listeners can go on registering
    listeners). *)
Inductive PassEnd := Completed | Escaped (e : Exc) | Unfinished.

(** [BaseInput._notify_listeners] on listeners in general.  The [for]
    loop reads the live list [self.data_listeners] by index, so a listener
    registered during the pass is reached by the same pass. *)
Fixpoint notify_live (fuel : nat) (nm : string) (d : InputData) (i : nat)
    (ls : list Listener) : PassEnd * list Listener * list Event :=
  match fuel with
  | O => (Unfinished, ls, [])
  | S fuel' =>
      match nth_error ls i with
      | None => (Completed, ls, [])
      | Some l =>
          let ls1 := (ls ++ ls_registers l d)%list in
          match attempt d l with
          | (Some (mkExc OfBaseException txt), evs) =>
              (Escaped (mkExc OfBaseException txt), ls1, evs)
          | _ =>
              match notify_live fuel' nm d (S i) ls1 with
              | (ending, ls2, evs2) => (ending, ls2, (turn_events nm d l ++ evs2)%list)
              end
          end
      end
  end.

(** A source whose listeners are listeners in general: [live_listeners]
    stands for [self.data_listeners]; the field of that name of
    [live_base] is not used. *)
Record LiveInput := mkLive {
  live_base : BaseInput;
  live_listeners : list Listener
}.


(** [BaseInput.add_data]: the two assignments to [self.current_data],
    then the pass over the listeners. *)
Definition add_data_live (fuel : nat) (d : InputData) (x : LiveInput)
  : PassEnd * LiveInput * list Event :=
  let s1 :=
    set_current_data
      (filter (fun r => negb (same_key r d)) (current_data (live_base x)) ++ [d])%list
      (live_base x) in
  match notify_live fuel (name s1) d 0 (live_listeners x) with
  | (ending, ls, evs) => (ending, mkLive s1 ls, evs)
  end.

(** The parts of the outcome of [add_data_live]. *)
Definition live_end (r : PassEnd * LiveInput * list Event) : PassEnd := fst (fst r).
Definition live_state (r : PassEnd * LiveInput * list Event) : LiveInput := snd (fst r).
Definition live_events (r : PassEnd * LiveInput * list Event) : list Event := snd r.


(** An ordinary listener as a listener in general. *)
Definition ordinary (cb : Callback) : Listener :=
  mkListener (cb_id cb) (cb_is_coroutine cb)
    (fun d => option_map (mkExc OfException) (cb_call cb d))
    (fun _ => None) (fun _ => []).

(** A listener that stays within what [except Exception] isolates: the
    turn on it raises instances of [Exception] only, and it registers no
    listener. *)
Definition well_behaved (d : InputData) (l : Listener) : Prop :=
  (forall e, fst (attempt d l) = Some e -> exc_class e = OfException) /\
  ls_registers l d = [].

(** The tasks created for listeners among a list of effects, in order. *)
Definition scheduled (evs : list Event) : list (nat * InputData) :=
  flat_map (fun e => match e with
                     | CreateTask (ListenerCoroutine cb d) => [(cb, d)]
                     | _ => []
                     end) evs.

(** Is a task created in the turn on this listener? *)
Definition gets_task (d : InputData) (l : Listener) : bool :=
  ls_is_coroutine l &&
  match ls_call l d, ls_task l d with
  | None, None => true
  | _, _ => false
  end.

(** Three listeners in general: one that returns, one that is interrupted
    from the keyboard, and one registered after them. *)
Definition calm : Listener :=
  mkListener 0 false (fun _ => None) (fun _ => None) (fun _ => []).
Definition interrupted : Listener :=
  mkListener 1 false (fun _ => Some (mkExc OfBaseException "KeyboardInterrupt"))
    (fun _ => None) (fun _ => []).
Definition late : Listener :=
  mkListener 2 true (fun _ => None) (fun _ => None) (fun _ => []).


(** ** The update loop and stop() *)

(** One pass of the loop together with what the rest of the program does
    while the loop sleeps after it: [tn_stop] tells whether another task
    calls [stop()] during that sleep. *)
Record Turn := mkTurn {
  tn_tick : Tick;
  tn_stop : bool
}.

(** [BaseInput._update_loop] run next to a program that may call
    [stop()] while the loop sleeps. *)
Fixpoint _update_loop_with_stop (turns : list Turn) (s : BaseInput)
  : LoopStatus * BaseInput * list Event :=
  if running s then
    match turns with
    | [] => (LoopAlive, s, [])
    | tn :: rest =>
        match loop_body (tn_tick tn) s with
        | (Return true, s1, ev1) => (LoopExited, s1, ev1)
        | (Return false, s1, ev1) =>
            let asleep := if tn_stop tn then stop s1 else ret tt s1 in
            match _update_loop_with_stop rest (state_of asleep) with
            | (st, s2, ev2) => (st, s2, (ev1 ++ events_of asleep ++ ev2)%list)
            end
        | (Raise _, s1, ev1) => (LoopExited, s1, ev1)
        end
    end
  else (LoopExited, s, []).

(** ** Further methods of display_controller.py *)

(** [DisplayController.show_status]: [if details:] is false for [None]
    and for the empty string; the caller's [duration] defaults to 3. *)
Definition show_status (status : string) (details : option string)
    (duration : option Z) (w : World) : World :=
  let text :=
    match details with
    | Some (String c r) => status ++ String newline (String c r)
    | _ => status
    end in
  show_text text "small" None duration true w.

(** [DisplayController.show_notification]; the caller's [duration]
    defaults to 5. *)
Definition show_notification (title message : string) (duration : option Z)
    (w : World) : World :=
  show_text (title ++ String newline message) "small" None duration true w.

(** [DisplayController.show_time]; [time_str] and [date_str] stand for
    the two [strftime] results. *)
Definition show_time (time_str date_str : string) (duration : option Z)
    (w : World) : World :=
  show_text (time_str ++ String newline date_str) "medium" None duration true w.

(** ** main.py *)

(** The [show_text] call of [WearableDevice.initialize], after the display
    has been initialised. *)
Definition startup_text : string := "Wearable Device" ++ String newline "Starting...".

Definition show_startup (w : World) : World :=
  show_text startup_text "medium" None (Some 2) true w.

(** The three display calls of one turn of the [while] loop of
    [WearableDevice.run], up to its [asyncio.sleep(1)]; none of them
    yields to the event loop. *)
Definition ready_text : string := "Ready for" ++ String newline "integration".

Definition demo_turn (time_str date_str : string) (w : World) : World :=
  show_text ready_text "medium" None (Some 3) true
    (show_time time_str date_str (Some 3)
       (show_text "Hello World!" "medium" None (Some 3) true w)).

(** Where the ink of a [draw.text] call lies: Pillow measures a text with
    [textbbox] relative to the point it is drawn at, so the ink of
    [draw.text((x, y), line)] is the box [textbbox((0, 0), line)] moved by
    [(x, y)]. *)
Definition ink_box (dev : Device) (op : DrawOp) : option (Z * Z * Z * Z) :=
  match op with
  | DrawText x y line font _ =>
      let '(x0, y0, x1, y1) := textbbox dev font line in
      Some (x + x0, y + y0, x + x1, y + y1)
  | DrawRectangle _ _ _ => None
  end.

(** ["\n".join(lines)] *)
Fixpoint join_lines (lines : list string) : string :=
  match lines with
  | [] => EmptyString
  | [l] => l
  | l :: rest => l ++ String newline (join_lines rest)
  end.

(** The text of a [draw.text] call. *)
Definition drawn_text (op : DrawOp) : option string :=
  match op with
  | DrawText _ _ line _ _ => Some line
  | DrawRectangle _ _ _ => None
  end.

(** The task was cancelled before the event loop ever resumed it: the
    cancellation is still pending on the unstarted coroutine, or has been
    delivered to it. *)
Definition pre_empted (t : DisplayTask) : Prop :=
  t_must_cancel t = true /\ (t_state t = Created \/ t_state t = Cancelled).

(** ** Properties of base_input.py *)

(** *** Running the methods *)

Lemma notify_one_run nm d cb s :
  exists evs,
    notify_one nm d cb s = (Return tt, s, evs) /\
    deliveries evs = [(cb_id cb, d)] /\
    (forall e, cb_call cb d = Some e -> In (listener_error nm e) evs).
Proof.
  unfold notify_one, call, try_except, bind, emit, raise, ret, listener_error.
  destruct (cb_is_coroutine cb), (cb_call cb d) as [e|]; simpl;
    eexists; (split; [reflexivity|]); (split; [reflexivity|]);
    intros e' He'; try discriminate; injection He' as <-; simpl; auto.
Qed.

Lemma for_each_notify_run nm d l s :
  exists evs,
    for_each l (notify_one nm d) s = (Return tt, s, evs) /\
    deliveries evs = map (fun cb => (cb_id cb, d)) l /\
    (forall cb e, In cb l -> cb_call cb d = Some e ->
                  In (listener_error nm e) evs).
Proof.
  induction l as [|cb l IH]; simpl.
  - unfold ret. exists []. repeat split. intros cb e [].
  - unfold bind. destruct (notify_one_run nm d cb s) as (e1 & -> & Hd1 & Hl1).
    destruct IH as (e2 & -> & Hd2 & Hl2).
    exists (e1 ++ e2)%list. split; [reflexivity|]. split.
    + unfold deliveries in *. rewrite flat_map_app, Hd1, Hd2. reflexivity.
    + intros cb' e [<-|Hin] He; apply in_or_app; eauto.
Qed.

Lemma notify_listeners_run d s :
  exists evs,
    _notify_listeners d s = (Return tt, s, evs) /\
    deliveries evs = map (fun cb => (cb_id cb, d)) (data_listeners s) /\
    (forall cb e, In cb (data_listeners s) -> cb_call cb d = Some e ->
                  In (listener_error (name s) e) evs).
Proof.
  unfold _notify_listeners, bind, get.
  destruct (for_each_notify_run (name s) d (data_listeners s) s)
    as (evs & -> & Hd & Hl).
  exists evs. auto.
Qed.

Lemma add_data_run d s :
  exists evs,
    add_data d s =
    (Return tt,
     set_current_data
       (filter (fun x => negb (same_key x d)) (current_data s) ++ [d])%list s,
     evs).
Proof.
  unfold add_data, bind, modify.
  match goal with
  | |- context [_notify_listeners d ?st] =>
      destruct (notify_listeners_run d st) as (evs & -> & _)
  end.
  simpl. eauto.
Qed.

Lemma add_data_current d s :
  current_data (after (add_data d) s) =
  (filter (fun x => negb (same_key x d)) (current_data s) ++ [d])%list.
Proof.
  unfold after. destruct (add_data_run d s) as [evs ->]. reflexivity.
Qed.

Lemma clean_current now s :
  current_data (after (_clean_expired_data now) s) =
  filter (fun d => negb (is_expired now d)) (current_data s).
Proof. reflexivity. Qed.

Lemma max_by_timestamp_In xs : forall b, In (max_by_timestamp b xs) (b :: xs).
Proof.
  induction xs as [|x xs IH]; intros b; simpl.
  - auto.
  - destruct (timestamp x >? timestamp b).
    + right. apply IH.
    + destruct (IH b) as [H|H]; auto.
Qed.

Lemma get_current_data_resident ty s r :
  In r (get_current_data ty s) -> In r (current_data s).
Proof.
  unfold get_current_data. destruct ty as [k|]; auto.
  destruct (k =? ""); auto.
  intros H. apply filter_In in H. tauto.
Qed.

Lemma get_latest_data_in k s r :
  get_latest_data k s = Some r -> In r (get_current_data (Some k) s).
Proof.
  unfold get_latest_data.
  destruct (get_current_data (Some k) s) as [|x xs]; [discriminate|].
  intros H. injection H as <-. apply max_by_timestamp_In.
Qed.

(** *** Expiry and the reads *)

(** C1, as stated, fails: a record whose expiry time has passed is still
    returned by [get_current_data] (with and without a kind) and by
    [get_latest_data] as long as no pruning pass has removed it; the reads
    never look at the clock. *)
Lemma C1_expired_record_returned :
  In time_record (current_data time_state) /\
  expires_at time_record = Some 120 /\
  is_expired 121 time_record = true /\
  In time_record (get_current_data None time_state) /\
  In time_record (get_current_data (Some "time") time_state) /\
  get_latest_data "time" time_state = Some time_record.
Proof. vm_compute. intuition. Qed.

(** C1, amended: the reads return resident records only and apply no
    expiry check of their own ([get_current_data] without a kind is the
    whole collection); a record that is expired at time [now] is returned
    by no read made right after a pruning pass at [now]. *)
Theorem C1_reads_after_pruning (now : datetime) (s : BaseInput) (r : InputData)
    (H : is_expired now r = true) :
  get_current_data None s = current_data s /\
  (forall ty, ~ In r (get_current_data ty (after (_clean_expired_data now) s))) /\
  (forall k, get_latest_data k (after (_clean_expired_data now) s) <> Some r).
Proof.
  assert (Hres : ~ In r (current_data (after (_clean_expired_data now) s))).
  { rewrite clean_current. intros Hin. apply filter_In in Hin.
    destruct Hin as [_ Hne]. rewrite H in Hne. discriminate. }
  split; [reflexivity|]. split.
  - intros ty Hin. apply Hres. eapply get_current_data_resident; eauto.
  - intros k Hl. apply Hres.
    eapply get_current_data_resident. eapply get_latest_data_in; eauto.
Qed.

Lemma C1_reads_after_pruning_witness :
  is_expired 121 time_record = true /\
  get_latest_data "time" (after (_clean_expired_data 121) time_state) <> Some time_record.
Proof.
  split; [reflexivity|].
  apply (C1_reads_after_pruning 121 time_state time_record); reflexivity.
Defined.

(** *** Records without an expiry time *)

Lemma apply_ops_keeps (r : InputData) :
  expires_at r = None ->
  forall ops s,
    In r (current_data s) ->
    Forall (fun op => supersedes r op = false) ops ->
    In r (current_data (apply_ops ops s)).
Proof.
  intros Hnone ops. induction ops as [|op ops IH]; intros s Hin Hall; simpl.
  - exact Hin.
  - inversion Hall as [|? ? Hop Hrest]; subst.
    apply IH; [|exact Hrest].
    destruct op as [d|now]; cbn [apply_op supersedes] in *.
    + rewrite add_data_current. apply in_or_app. left.
      apply filter_In. split; [exact Hin|]. rewrite Hop. reflexivity.
    + rewrite clean_current. apply filter_In. split; [exact Hin|].
      unfold is_expired. rewrite Hnone. reflexivity.
Qed.

(** C10: a record built with [expires_at = None] is expired at no time, a
    pruning pass keeps it, and it stays in [current_data] through every
    sequence of [add_data] and [_clean_expired_data] calls in which no
    [add_data] carries its (source, data_type); such an [add_data] with
    another record removes it. *)
Theorem C10_unexpiring_record_stays (r : InputData) (H : expires_at r = None) :
  (forall now, is_expired now r = false) /\
  (forall now s, In r (current_data s) ->
                 In r (current_data (after (_clean_expired_data now) s))) /\
  (forall ops s, In r (current_data s) ->
                 Forall (fun op => supersedes r op = false) ops ->
                 In r (current_data (apply_ops ops s))) /\
  (forall d s, same_key r d = true -> d <> r ->
               ~ In r (current_data (after (add_data d) s))).
Proof.
  split; [|split; [|split]].
  - intros now. unfold is_expired. rewrite H. reflexivity.
  - intros now s Hin. rewrite clean_current. apply filter_In.
    split; [exact Hin|]. unfold is_expired. rewrite H. reflexivity.
  - intros ops s. apply apply_ops_keeps. exact H.
  - intros d s Hk Hne Hin. rewrite add_data_current in Hin.
    apply in_app_or in Hin. destruct Hin as [Hin|[Hin|[]]].
    + apply filter_In in Hin. destruct Hin as [_ Hf].
      rewrite Hk in Hf. discriminate.
    + congruence.
Qed.

Lemma C10_unexpiring_record_stays_witness :
  expires_at gps_fix = None /\
  In gps_fix
     (current_data
        (apply_ops [OpClean 1000; OpAdd time_record; OpClean 5000; OpAdd imu_fix]
           (after (add_data gps_fix) fresh_input))).
Proof.
  split; [reflexivity|].
  apply (C10_unexpiring_record_stays gps_fix eq_refl).
  - vm_compute. auto.
  - repeat constructor.
Defined.

(** *** The latest record of a kind *)

Lemma max_by_timestamp_split xs : forall b,
  exists l1 l2,
    b :: xs = (l1 ++ max_by_timestamp b xs :: l2)%list /\
    (forall x, In x l1 -> timestamp x < timestamp (max_by_timestamp b xs)) /\
    (forall x, In x l2 -> timestamp x <= timestamp (max_by_timestamp b xs)).
Proof.
  induction xs as [|x xs IH]; intros b; simpl.
  - exists [], []. simpl. intuition.
  - destruct (Z.gtb_spec (timestamp x) (timestamp b)) as [Hgt|Hle].
    + destruct (IH x) as (l1 & l2 & Heq & H1 & H2).
      remember (max_by_timestamp x xs) as m.
      exists (b :: l1), l2. split; [simpl; rewrite Heq; reflexivity|].
      split; [|exact H2].
      intros y [<-|Hy]; [|auto].
      destruct l1 as [|z l1]; simpl in Heq; injection Heq as Hx _.
      * rewrite <- Hx. lia.
      * specialize (H1 z (or_introl eq_refl)). subst z. lia.
    + destruct (IH b) as (l1 & l2 & Heq & H1 & H2).
      remember (max_by_timestamp b xs) as m.
      destruct l1 as [|z l1]; simpl in Heq; injection Heq as Hb Hxs.
      * exists [], (x :: l2). split; [simpl; rewrite <- Hb, Hxs; reflexivity|].
        split; [intros y []|].
        intros y [<-|Hy]; [rewrite <- Hb; lia|auto].
      * subst z. exists (b :: x :: l1), l2.
        split; [simpl; rewrite Hxs; reflexivity|]. split; [|exact H2].
        pose proof (H1 b (or_introl eq_refl)) as Hbm.
        intros y [<-|[<-|Hy]]; [exact Hbm|lia|].
        apply H1. right. exact Hy.
Qed.

Lemma kind_filter k s :
  k <> "" ->
  get_current_data (Some k) s = filter (fun d => data_type d =? k) (current_data s).
Proof.
  intros Hk. unfold get_current_data.
  destruct (String.eqb_spec k ""); [contradiction|reflexivity].
Qed.

(** C8, as stated, fails on a tie: of two resident records of one kind
    with equal timestamps [get_latest_data] returns the one inserted
    first, not the one inserted last. *)
Lemma C8_tie_first_inserted_wins :
  current_data (add_all [gps_fix; imu_fix] fresh_input) = [gps_fix; imu_fix] /\
  timestamp gps_fix = timestamp imu_fix /\
  get_latest_data "position" (add_all [gps_fix; imu_fix] fresh_input) = Some gps_fix /\
  get_latest_data "position" (add_all [gps_fix; imu_fix] fresh_input) <> Some imu_fix.
Proof. vm_compute. repeat split; discriminate. Qed.

(** C8, amended: for a non-empty kind, [get_latest_data] returns nothing
    when no resident record has that kind, and otherwise a resident record
    of that kind (expired or not: the clock is not consulted) whose
    timestamp is maximal; among records with that maximal timestamp it is
    the first in insertion order. *)
Theorem C8_latest_is_first_maximum (k : string) (s : BaseInput) (Hk : k <> "") :
  match get_latest_data k s with
  | None => forall r, In r (current_data s) -> data_type r <> k
  | Some r =>
      exists earlier later,
        filter (fun d => data_type d =? k) (current_data s)
          = (earlier ++ r :: later)%list /\
        (forall x, In x earlier -> timestamp x < timestamp r) /\
        (forall x, In x later -> timestamp x <= timestamp r)
  end.
Proof.
  unfold get_latest_data. rewrite (kind_filter k s Hk).
  destruct (filter (fun d => data_type d =? k) (current_data s)) as [|x xs] eqn:Hf.
  - intros r Hin Hty.
    assert (Hr : In r (filter (fun d => data_type d =? k) (current_data s))).
    { apply filter_In. split; [exact Hin|]. apply String.eqb_eq. exact Hty. }
    rewrite Hf in Hr. exact Hr.
  - apply max_by_timestamp_split.
Qed.

Lemma C8_latest_is_first_maximum_witness :
  "position" <> "" /\
  exists earlier later,
    filter (fun d => data_type d =? "position")
      (current_data (add_all [gps_fix; imu_fix] fresh_input))
      = (earlier ++ gps_fix :: later)%list /\
    (forall x, In x earlier -> timestamp x < timestamp gps_fix) /\
    (forall x, In x later -> timestamp x <= timestamp gps_fix).
Proof.
  split; [discriminate|].
  exact (C8_latest_is_first_maximum "position"
           (add_all [gps_fix; imu_fix] fresh_input) ltac:(discriminate)).
Defined.

(** *** Supersession *)

Lemma same_key_iff a b : same_key a b = true <-> key a = key b.
Proof.
  unfold same_key, key. rewrite andb_true_iff, !String.eqb_eq.
  split; [intros [-> ->]; reflexivity|intros H; injection H; auto].
Qed.

Lemma filter_keeps_unique_keys (keep : InputData -> bool) (records : list InputData) :
  NoDup (map key records) -> NoDup (map key (filter keep records)).
Proof.
  induction records as [|x records IH]; simpl; intros H; [constructor|].
  inversion H as [|? ? Hx Hrest]; subst.
  destruct (keep x); simpl; auto.
  constructor; auto.
  intros Hin. apply Hx. apply in_map_iff in Hin.
  destruct Hin as (y & Hy & Hin). apply in_map_iff. exists y.
  apply filter_In in Hin. tauto.
Qed.

Lemma NoDup_snoc {A} (l : list A) (a : A) :
  NoDup l -> ~ In a l -> NoDup (l ++ [a]).
Proof.
  induction l as [|x l IH]; simpl; intros Hl Ha.
  - constructor; [intros []|constructor].
  - inversion Hl as [|? ? Hx Hl']; subst. constructor.
    + intros Hin. apply in_app_or in Hin.
      destruct Hin as [Hin|[Hin|[]]]; [auto|]. apply Ha. auto.
    + apply IH; auto.
Qed.

Lemma add_data_keeps_unique d s :
  NoDup (map key (current_data s)) ->
  NoDup (map key (current_data (after (add_data d) s))).
Proof.
  intros H. rewrite add_data_current, map_app. simpl.
  apply NoDup_snoc.
  - apply filter_keeps_unique_keys. exact H.
  - intros Hin. apply in_map_iff in Hin. destruct Hin as (x & Hk & Hin).
    apply filter_In in Hin. destruct Hin as [_ Hf].
    apply same_key_iff in Hk. rewrite Hk in Hf. discriminate.
Qed.

Lemma add_all_keeps_unique ds : forall s,
  NoDup (map key (current_data s)) ->
  NoDup (map key (current_data (add_all ds s))).
Proof.
  induction ds as [|d ds IH]; intros s H; simpl; [exact H|].
  apply IH. apply add_data_keeps_unique. exact H.
Qed.

Lemma add_all_snoc ds d s :
  add_all (ds ++ [d]) s = after (add_data d) (add_all ds s).
Proof. unfold add_all. rewrite fold_left_app. reflexivity. Qed.

Lemma add_all_resident ds : forall s x,
  In x (current_data (add_all ds s)) -> In x ds \/ In x (current_data s).
Proof.
  induction ds as [|d ds IH]; intros s x H; simpl in *; [auto|].
  apply IH in H. destruct H as [H|H]; [auto|].
  rewrite add_data_current in H. apply in_app_or in H.
  destruct H as [H|[H|[]]]; [|auto].
  apply filter_In in H. tauto.
Qed.

Lemma last_added_snoc k ds d :
  last_added k (ds ++ [d]) =
  if data_type d =? k then Some d else last_added k ds.
Proof. unfold last_added. rewrite rev_unit. reflexivity. Qed.

Lemma filter_none {A} (p : A -> bool) (l : list A) :
  (forall x, In x l -> p x = false) -> filter p l = [].
Proof.
  induction l as [|x l IH]; simpl; intros H; [reflexivity|].
  rewrite (H x (or_introl eq_refl)). apply IH. auto.
Qed.

Lemma filter_filter_weaker {A} (p q : A -> bool) (l : list A) :
  (forall x, p x = true -> q x = true) -> filter p (filter q l) = filter p l.
Proof.
  intros H. induction l as [|x l IH]; simpl; [reflexivity|].
  destruct (q x) eqn:Hq; simpl.
  - rewrite IH. reflexivity.
  - destruct (p x) eqn:Hp; [|exact IH].
    rewrite (H x Hp) in Hq. discriminate.
Qed.

Lemma latest_of_last_added k ds :
  k <> "" ->
  forall r,
    last_added k ds = Some r ->
    (forall d, In d ds -> data_type d = k -> source d = source r) ->
    forall nm e i m,
      get_latest_data k (add_all ds (BaseInput_init nm e i m)) = Some r.
Proof.
  intros Hk. induction ds as [|d ds IH] using rev_ind; intros r Hlast Hsrc nm e i m.
  - discriminate.
  - rewrite last_added_snoc in Hlast. rewrite add_all_snoc.
    unfold get_latest_data. rewrite kind_filter by exact Hk.
    rewrite add_data_current, filter_app. simpl.
    destruct (String.eqb_spec (data_type d) k) as [Hd|Hd].
    + injection Hlast as <-.
      rewrite filter_none; [reflexivity|].
      intros x Hx. apply filter_In in Hx. destruct Hx as [Hx Hnk].
      destruct (String.eqb_spec (data_type x) k) as [Hxk|]; [|reflexivity].
      exfalso.
      apply add_all_resident in Hx. destruct Hx as [Hx|[]].
      assert (Hs : source x = source d).
      { apply Hsrc; [apply in_or_app; auto|exact Hxk]. }
      assert (Hsk : same_key x d = true).
      { apply same_key_iff. unfold key. congruence. }
      rewrite Hsk in Hnk. discriminate.
    + rewrite app_nil_r, filter_filter_weaker.
      * specialize (IH r Hlast
                      (fun d' Hin => Hsrc d' (in_or_app _ _ _ (or_introl Hin)))
                      nm e i m).
        unfold get_latest_data in IH. rewrite kind_filter in IH by exact Hk.
        exact IH.
      * intros x Hx. unfold same_key.
        apply String.eqb_eq in Hx.
        destruct (String.eqb_spec (data_type x) (data_type d)) as [Heq|];
          [congruence|]. rewrite andb_false_r. reflexivity.
Qed.

(** C2, as stated, fails in its second half.  After [old_reading] and then
    [new_reading] (same source and kind) are added, [get_latest_data]
    at second 61 returns [new_reading] although it has expired; and after
    [gps_late] and then [imu_fix] (same kind, two sources) it returns
    [gps_late], which was not added last. *)
Lemma C2_latest_not_last_unexpired :
  (is_expired 61 new_reading = true /\
   is_expired 61 old_reading = false /\
   get_latest_data "time" (add_all [old_reading; new_reading] fresh_input)
     = Some new_reading) /\
  (is_expired 61 gps_late = false /\
   is_expired 61 imu_fix = false /\
   get_latest_data "position" (add_all [gps_late; imu_fix] fresh_input)
     = Some gps_late /\
   gps_late <> imu_fix).
Proof. vm_compute. repeat split; discriminate. Qed.

(** C2, amended: after every sequence of [add_data] calls on a new
    [BaseInput] at most one record per (source, data_type) is resident;
    and for a non-empty kind whose added records all come from one source,
    [get_latest_data] returns the record of that kind added last, whether
    or not it has expired. *)
Theorem C2_supersession (ds : list InputData) (nm : string)
    (e : option bool) (i m : option Z) :
  NoDup (map key (current_data (add_all ds (BaseInput_init nm e i m)))) /\
  (forall k r,
     k <> "" ->
     last_added k ds = Some r ->
     (forall d, In d ds -> data_type d = k -> source d = source r) ->
     get_latest_data k (add_all ds (BaseInput_init nm e i m)) = Some r).
Proof.
  split.
  - apply add_all_keeps_unique. simpl. constructor.
  - intros k r Hk Hlast Hsrc. apply latest_of_last_added; assumption.
Qed.

Lemma C2_supersession_witness :
  last_added "time" [old_reading; new_reading] = Some new_reading /\
  NoDup (map key (current_data (add_all [old_reading; new_reading] fresh_input))) /\
  get_latest_data "time" (add_all [old_reading; new_reading] fresh_input)
    = Some new_reading.
Proof.
  split; [reflexivity|]. split.
  - exact (proj1 (C2_supersession [old_reading; new_reading] "time_input" None None None)).
  - apply (proj2 (C2_supersession [old_reading; new_reading] "time_input" None None None)).
    + discriminate.
    + reflexivity.
    + intros d [<-|[<-|[]]] _; reflexivity.
Defined.

(** *** Listener fan-out *)

Lemma deliveries_concat evs1 evs2 :
  deliveries (evs1 ++ evs2) = (deliveries evs1 ++ deliveries evs2)%list.
Proof. unfold deliveries. apply flat_map_app. Qed.


(** The effects of a turn on one listener. *)
Lemma turn_of_listener nm d l :
  deliveries (turn_events nm d l) = [(ls_id l, d)] /\
  scheduled (turn_events nm d l) = (if gets_task d l then [(ls_id l, d)] else []) /\
  (forall e, fst (attempt d l) = Some e ->
             In (listener_error nm (exc_text e)) (turn_events nm d l)).
Proof.
  unfold turn_events, attempt, gets_task.
  destruct (ls_call l d) as [e|], (ls_is_coroutine l), (ls_task l d) as [e'|];
    cbn; repeat split; intros e0 H; try discriminate;
    injection H as <-; auto.
Qed.

(** A pass over well-behaved listeners, begun at any index. *)
Lemma pass_over_well_behaved nm d rest : forall done fuel,
  Forall (well_behaved d) rest ->
  (List.length rest < fuel)%nat ->
  notify_live fuel nm d (List.length done) (done ++ rest)
  = (Completed, (done ++ rest)%list, flat_map (turn_events nm d) rest).
Proof.
  induction rest as [|l rest IH]; intros done fuel Hall Hfuel.
  - destruct fuel; [inversion Hfuel|]. cbn [notify_live].
    rewrite app_nil_r.
    assert (Hnone : nth_error done (List.length done) = None)
      by (apply nth_error_None; lia).
    rewrite Hnone. reflexivity.
  - destruct fuel as [|fuel]; [inversion Hfuel|]. cbn [notify_live].
    rewrite nth_error_app2, Nat.sub_diag by lia. cbn [nth_error].
    inversion Hall as [|? ? [Hexc Hreg] Hrest]; subst.
    rewrite Hreg, app_nil_r.
    assert (Hnext : notify_live fuel nm d (S (List.length done)) (done ++ l :: rest)
                    = (Completed, (done ++ l :: rest)%list,
                       flat_map (turn_events nm d) rest)).
    { replace (done ++ l :: rest)%list with ((done ++ [l]) ++ rest)%list
        by (rewrite <- app_assoc; reflexivity).
      replace (S (List.length done)) with (List.length (done ++ [l]))
        by (rewrite length_app; cbn; lia).
      apply IH; [exact Hrest|]. cbn in Hfuel. lia. }
    rewrite Hnext.
    destruct (attempt d l) as [[[[] txt]|] evs] eqn:Ha; cbn [flat_map]; try reflexivity.
    specialize (Hexc (mkExc OfBaseException txt) eq_refl). discriminate.
Qed.

Lemma pass_from_start nm d ls fuel :
  Forall (well_behaved d) ls ->
  (List.length ls < fuel)%nat ->
  notify_live fuel nm d 0 ls = (Completed, ls, flat_map (turn_events nm d) ls).
Proof. intros H Hf. exact (pass_over_well_behaved nm d ls [] fuel H Hf). Qed.

(** The ordinary listeners are a special case: on them the pass is the
    [for] loop of [_notify_listeners] as modelled for [Callback]. *)
Lemma ordinary_turn nm d cb s :
  turn_events nm d (ordinary cb) = events_of (notify_one nm d cb s) /\
  well_behaved d (ordinary cb).
Proof.
  unfold well_behaved, turn_events, attempt, ordinary, notify_one, call,
    try_except, bind, emit, raise, ret, events_of.
  cbn. destruct (cb_call cb d) as [e|], (cb_is_coroutine cb); cbn;
    (split; [reflexivity|]); (split; [|reflexivity]);
    intros e0 H; try discriminate; injection H as <-; reflexivity.
Qed.

Lemma ordinary_listeners_agree nm d cbs s :
  notify_live (S (List.length cbs)) nm d 0 (map ordinary cbs)
  = (Completed, map ordinary cbs, events_of (for_each cbs (notify_one nm d) s)).
Proof.
  assert (Hw : Forall (well_behaved d) (map ordinary cbs)).
  { apply Forall_forall. intros l Hl. apply in_map_iff in Hl.
    destruct Hl as (cb & <- & _). apply (ordinary_turn nm d cb s). }
  rewrite (pass_over_well_behaved nm d (map ordinary cbs) [] _ Hw)
    by (rewrite length_map; lia).
  cbn [app]. f_equal.
  induction cbs as [|cb cbs IH]; [reflexivity|].
  cbn [map flat_map for_each]. unfold bind.
  destruct (notify_one_run nm d cb s) as (e1 & Hrun & _).
  destruct (for_each_notify_run nm d cbs s) as (e2 & Hrun2 & _).
  rewrite (proj1 (ordinary_turn nm d cb s)), IH.
  { rewrite Hrun, Hrun2. reflexivity. }
  inversion Hw; assumption.
Qed.




(** The same on three listeners of which the second raises: all three are
    called, and the error is logged between the second and the third. *)
Example notify_three :
  _notify_listeners time_record listening_input =
  (Return tt, listening_input,
   [Called 0 time_record;
    Called 1 time_record;
    listener_error "time_input" "boom";
    Called 2 time_record;
    CreateTask (ListenerCoroutine 2 time_record)]).
Proof. reflexivity. Qed.

(** *** start and stop *)

(** C5, as stated, fails in its last part: [start] on an instance that is
    already running launches one more update loop. *)
Lemma C5_second_start_launches_again :
  running (after start fresh_input) = true /\
  events_of (start (after start fresh_input))
    = [LogInfo "Starting input module: time_input"; CreateTask UpdateLoop] /\
  loops_launched (events_of ((start ;; start)%method fresh_input)) = 2%nat.
Proof. vm_compute. auto. Qed.

(** C5, amended: [start] never raises; on a disabled instance it changes
    nothing and launches nothing (it logs one line); on an enabled
    instance it sets [running] and launches exactly one update loop per
    call, whether or not the instance is already running. *)
Theorem C5_start (s : BaseInput) :
  result_of (start s) = Return tt /\
  if enabled s then
    state_of (start s) = set_running true s /\
    loops_launched (events_of (start s)) = 1%nat
  else
    state_of (start s) = s /\
    events_of (start s) = [LogInfo ("Input module " ++ name s ++ " is disabled")].
Proof.
  unfold start, bind, get, emit, modify.
  destruct (enabled s); simpl; auto.
Qed.

(** C6, as stated, fails in its second part: the second [stop] runs the
    cleanup hook again. *)
Lemma C6_second_stop_cleans_up_again :
  running (after stop flaky_input) = false /\
  events_of (stop (after stop flaky_input))
    = [LogInfo "Stopping input module: sensor"; CleanupHook] /\
  cleanups_run (events_of ((stop ;; stop)%method flaky_input)) = 2%nat.
Proof. vm_compute. auto. Qed.

(** C6, amended: [stop] never raises and leaves [running] false; a second
    [stop] leaves the state the first one produced; every call of [stop]
    runs the cleanup hook once, so two calls run it twice. *)
Theorem C6_stop (s : BaseInput) :
  result_of (stop s) = Return tt /\
  state_of (stop s) = set_running false s /\
  running (after stop s) = false /\
  after stop (after stop s) = after stop s /\
  cleanups_run (events_of (stop s)) = 1%nat /\
  cleanups_run (events_of ((stop ;; stop)%method s)) = 2%nat.
Proof.
  unfold after, stop, bind, get, emit, modify. simpl. auto 10.
Qed.

(** *** The update loop *)

Lemma for_each_add_data_run added : forall s,
  exists l evs,
    for_each added add_data s = (Return tt, set_current_data l s, evs).
Proof.
  induction added as [|d added IH]; intros s; simpl.
  - exists (current_data s), []. unfold ret. destruct s; reflexivity.
  - unfold bind. destruct (add_data_run d s) as (e1 & ->).
    destruct (IH (set_current_data
                    (filter (fun x => negb (same_key x d)) (current_data s) ++ [d])%list s))
      as (l & e2 & ->).
    exists l, (e1 ++ e2)%list. reflexivity.
Qed.

Lemma fetch_data_run o s :
  exists l evs,
    _fetch_data o s =
    (match o with FetchOk _ => Return tt | FetchRaises _ e => Raise e end,
     set_current_data l s, evs).
Proof.
  destruct o as [added|added e]; simpl.
  - apply for_each_add_data_run.
  - unfold bind, raise.
    destruct (for_each_add_data_run added s) as (l & evs & ->).
    exists l, (evs ++ [])%list. reflexivity.
Qed.

(** A pass in which the fetch step raises: the counter goes up by one, and
    the loop is left exactly when the counter has reached [max_errors]. *)
Lemma loop_body_failure tk s :
  failing_tick s tk = true ->
  exists l evs,
    loop_body tk s =
    (Return (error_count s + 1 >=? max_errors s),
     (if error_count s + 1 >=? max_errors s
      then set_running false
             (set_error_count (error_count s + 1) (set_current_data l s))
      else set_error_count (error_count s + 1) (set_current_data l s)),
     evs).
Proof.
  unfold failing_tick. intros H. apply andb_true_iff in H. destruct H as [Hup Hr].
  unfold loop_body, try_except.
  unfold bind at 1. unfold get at 1. rewrite Hup.
  unfold bind at 1. unfold bind at 1.
  destruct (tk_fetch tk) as [added|added e]; [discriminate|].
  destruct (fetch_data_run (FetchRaises added e) s) as (l & evs & ->).
  unfold bind, modify, get, emit, ret. simpl.
  destruct (error_count s + 1 >=? max_errors s); simpl; eauto.
Qed.

(** A pass in which the fetch step returns: the counter is reset. *)
Lemma loop_body_success tk s :
  succeeding_tick s tk = true ->
  exists l evs,
    loop_body tk s =
    (Return false,
     set_error_count 0 (set_last_update (Some (tk_after tk)) (set_current_data l s)),
     evs).
Proof.
  unfold succeeding_tick. intros H. apply andb_true_iff in H. destruct H as [Hup Hr].
  unfold loop_body, try_except.
  unfold bind at 1. unfold get at 1. rewrite Hup.
  unfold bind at 1. unfold bind at 1.
  destruct (tk_fetch tk) as [added|added e]; [|discriminate].
  destruct (fetch_data_run (FetchOk added) s) as (l & evs & ->).
  unfold bind, modify, get, emit, ret, _clean_expired_data, modify. simpl.
  do 2 eexists. unfold set_error_count, set_last_update, set_current_data. simpl.
  reflexivity.
Qed.

(** A pass in which no fetch is due: the counter is left alone. *)
Lemma loop_body_idle tk s :
  _should_update (tk_now tk) s = false ->
  exists l evs,
    loop_body tk s = (Return false, set_current_data l s, evs).
Proof.
  intros Hup. unfold loop_body, try_except.
  unfold bind at 1. unfold get at 1. rewrite Hup.
  unfold bind, modify, get, emit, ret, _clean_expired_data, modify. simpl.
  do 2 eexists. unfold set_error_count, set_last_update, set_current_data. simpl.
  reflexivity.
Qed.

Lemma failing_tick_ext s s' tk :
  last_update s' = last_update s ->
  update_interval s' = update_interval s ->
  failing_tick s' tk = failing_tick s tk.
Proof.
  intros Hl Hi. unfold failing_tick, _should_update. rewrite Hl, Hi. reflexivity.
Qed.

Lemma succeeding_tick_ext s s' tk :
  last_update s' = last_update s ->
  update_interval s' = update_interval s ->
  succeeding_tick s' tk = succeeding_tick s tk.
Proof.
  intros Hl Hi. unfold succeeding_tick, _should_update. rewrite Hl, Hi. reflexivity.
Qed.

Lemma Forall_failing_ext s s' ticks :
  last_update s' = last_update s ->
  update_interval s' = update_interval s ->
  Forall (fun tk => failing_tick s tk = true) ticks ->
  Forall (fun tk => failing_tick s' tk = true) ticks.
Proof.
  intros Hl Hi H. eapply Forall_impl; [|exact H].
  intros tk Htk. simpl in *. rewrite (failing_tick_ext s s' tk Hl Hi). exact Htk.
Qed.

(** As many failures in a row as are left before the threshold: the loop
    is left with [running] false, whatever passes would follow. *)
Lemma loop_fail_stop failures : forall s rest,
  running s = true ->
  failures <> [] ->
  Forall (fun tk => failing_tick s tk = true) failures ->
  error_count s + Z.of_nat (List.length failures) = max_errors s ->
  result_of (_update_loop (failures ++ rest) s) = LoopExited /\
  running (state_of (_update_loop (failures ++ rest) s)) = false /\
  error_count (state_of (_update_loop (failures ++ rest) s)) = max_errors s.
Proof.
  induction failures as [|tk fs IH]; intros s rest Hrun Hne Hall Hlen;
    [contradiction|].
  inversion Hall as [|? ? Htk Hfs]; subst.
  cbn [app _update_loop]. rewrite Hrun.
  destruct (loop_body_failure tk s Htk) as (l & evs & ->).
  destruct fs as [|tk' fs'].
  - cbn [List.length] in Hlen.
    assert (Hc : (error_count s + 1 >=? max_errors s) = true)
      by (apply Z.geb_le; lia).
    rewrite Hc. cbn. repeat split. lia.
  - assert (Hc : (error_count s + 1 >=? max_errors s) = false).
    { destruct (Z.geb_spec (error_count s + 1) (max_errors s)); [|reflexivity].
      cbn [List.length] in Hlen. lia. }
    rewrite Hc.
    set (s1 := set_error_count (error_count s + 1) (set_current_data l s)).
    destruct (IH s1 rest) as (H1 & H2 & H3).
    + exact Hrun.
    + discriminate.
    + eapply Forall_failing_ext; [| |exact Hfs]; reflexivity.
    + cbn [List.length] in *. subst s1. cbn. lia.
    + destruct (_update_loop ((tk' :: fs') ++ rest) s1) as [[st s2] ev2].
      cbn in *. auto.
Qed.

(** Fewer failures in a row than are left before the threshold: the loop
    goes on from a running state whose counter has counted them. *)
Lemma loop_failures_alive failures : forall s,
  running s = true ->
  Forall (fun tk => failing_tick s tk = true) failures ->
  error_count s + Z.of_nat (List.length failures) < max_errors s ->
  exists s' evs,
    (forall rest,
       _update_loop (failures ++ rest) s =
       (result_of (_update_loop rest s'), state_of (_update_loop rest s'),
        (evs ++ events_of (_update_loop rest s'))%list)) /\
    running s' = true /\
    error_count s' = error_count s + Z.of_nat (List.length failures) /\
    last_update s' = last_update s /\
    update_interval s' = update_interval s /\
    max_errors s' = max_errors s.
Proof.
  induction failures as [|tk fs IH]; intros s Hrun Hall Hlen.
  - exists s, []. split.
    + intros rest. cbn [app]. destruct (_update_loop rest s) as [[st s2] ev2].
      reflexivity.
    + cbn. repeat split; auto; lia.
  - inversion Hall as [|? ? Htk Hfs]; subst.
    destruct (loop_body_failure tk s Htk) as (l & evs & Hbody).
    assert (Hc : (error_count s + 1 >=? max_errors s) = false).
    { destruct (Z.geb_spec (error_count s + 1) (max_errors s)); [|reflexivity].
      cbn [List.length] in Hlen. lia. }
    rewrite Hc in Hbody.
    set (s1 := set_error_count (error_count s + 1) (set_current_data l s)) in *.
    destruct (IH s1) as (s' & evs' & Hloop & Hr & He & Hl & Hi & Hm).
    + exact Hrun.
    + eapply Forall_failing_ext; [| |exact Hfs]; reflexivity.
    + cbn [List.length] in *. subst s1. cbn. lia.
    + exists s', (evs ++ evs')%list. split.
      * intros rest. cbn [app _update_loop]. rewrite Hrun, Hbody, Hloop.
        rewrite app_assoc. reflexivity.
      * subst s1. cbn in *. cbn [List.length]. repeat split; auto; lia.
Qed.

(** C4: from a running source whose counter is at zero, [max_errors]
    failing fetches in a row bring the counter to [max_errors], set
    [running] to false and end the loop, whatever would follow; fewer
    failures leave the loop alive with the counter at their number; one
    successful fetch after them puts the counter back to zero; and a pass
    that is not a successful fetch never lowers the counter. *)
Theorem C4_fail_stop (s : BaseInput) (failures : list Tick)
    (Hrun : running s = true) (Hzero : error_count s = 0)
    (Hfail : Forall (fun tk => failing_tick s tk = true) failures) :
  (failures <> [] ->
   Z.of_nat (List.length failures) = max_errors s ->
   forall rest,
     result_of (_update_loop (failures ++ rest) s) = LoopExited /\
     running (state_of (_update_loop (failures ++ rest) s)) = false /\
     error_count (state_of (_update_loop (failures ++ rest) s)) = max_errors s) /\
  (Z.of_nat (List.length failures) < max_errors s ->
   result_of (_update_loop failures s) = LoopAlive /\
   running (state_of (_update_loop failures s)) = true /\
   error_count (state_of (_update_loop failures s))
     = Z.of_nat (List.length failures)) /\
  (Z.of_nat (List.length failures) < max_errors s ->
   forall ok,
     succeeding_tick s ok = true ->
     result_of (_update_loop (failures ++ [ok]) s) = LoopAlive /\
     running (state_of (_update_loop (failures ++ [ok]) s)) = true /\
     error_count (state_of (_update_loop (failures ++ [ok]) s)) = 0) /\
  (forall s0 tk,
     succeeding_tick s0 tk = false ->
     error_count s0 <= error_count (state_of (loop_body tk s0))).
Proof.
  split; [|split; [|split]].
  - intros Hne Hlen rest. apply loop_fail_stop; auto. lia.
  - intros Hlen.
    destruct (loop_failures_alive failures s Hrun Hfail)
      as (s' & evs & Hloop & Hr & He & _); [lia|].
    specialize (Hloop []). rewrite app_nil_r in Hloop. rewrite Hloop.
    cbn. rewrite Hr. cbn. repeat split; auto. lia.
  - intros Hlen ok Hok.
    destruct (loop_failures_alive failures s Hrun Hfail)
      as (s' & evs & Hloop & Hr & He & Hl & Hi & Hm); [lia|].
    rewrite Hloop. cbn [_update_loop]. rewrite Hr.
    rewrite <- (succeeding_tick_ext s s' ok Hl Hi) in Hok.
    destruct (loop_body_success ok s' Hok) as (l & evs' & ->).
    cbn. rewrite Hr. cbn. auto.
  - intros s0 tk Hs. unfold succeeding_tick in Hs.
    destruct (_should_update (tk_now tk) s0) eqn:Hup.
    + assert (Hf : failing_tick s0 tk = true).
      { unfold failing_tick. rewrite Hup.
        destruct (fetch_raises (tk_fetch tk)); [reflexivity|discriminate]. }
      destruct (loop_body_failure tk s0 Hf) as (l & evs & ->).
      destruct (error_count s0 + 1 >=? max_errors s0); cbn; lia.
    + destruct (loop_body_idle tk s0 Hup) as (l & evs & ->). cbn. lia.
Qed.

Lemma C4_fail_stop_witness :
  running flaky_input = true /\
  max_errors flaky_input = 3 /\
  result_of (_update_loop ([bad_tick 0; bad_tick 30; bad_tick 60] ++ [good_tick 90])
               flaky_input) = LoopExited /\
  running (state_of (_update_loop ([bad_tick 0; bad_tick 30; bad_tick 60] ++ [good_tick 90])
                       flaky_input)) = false /\
  error_count (state_of (_update_loop ([bad_tick 0; bad_tick 30; bad_tick 60] ++ [good_tick 90])
                           flaky_input)) = max_errors flaky_input.
Proof.
  split; [reflexivity|]. split; [reflexivity|].
  apply (proj1 (C4_fail_stop flaky_input [bad_tick 0; bad_tick 30; bad_tick 60]
                  eq_refl eq_refl ltac:(repeat constructor))).
  - discriminate.
  - reflexivity.
Defined.

(** ** Properties of display_controller.py *)

(** *** Layout *)

Lemma nth_error_enumerate {A B} (f : Z * A -> B) (l : list A) : forall k i,
  nth_error (map f (enumerate_from k l)) i =
  option_map (fun x => f (k + Z.of_nat i, x)) (nth_error l i).
Proof.
  induction l as [|x l IH]; intros k i.
  - destruct i; reflexivity.
  - destruct i as [|i].
    + cbn. rewrite Z.add_0_r. reflexivity.
    + cbn [enumerate_from map nth_error]. rewrite IH.
      replace (k + 1 + Z.of_nat i) with (k + Z.of_nat (S i)) by lia.
      reflexivity.
Qed.




(** *** The timed display task *)

Lemma nth_error_update_nth {A} (f : A -> A) (l : list A) : forall n m,
  nth_error (update_nth n f l) m =
  if Nat.eqb n m then option_map f (nth_error l m) else nth_error l m.
Proof.
  induction l as [|x l IH]; intros n m.
  - destruct n, m; cbn; try reflexivity; destruct (Nat.eqb n m); reflexivity.
  - destruct n as [|n], m as [|m]; cbn; try reflexivity. apply IH.
Qed.

Lemma length_update_nth {A} (f : A -> A) (l : list A) : forall n,
  List.length (update_nth n f l) = List.length l.
Proof.
  induction l as [|x l IH]; intros n; destruct n; cbn; try reflexivity.
  rewrite IH. reflexivity.
Qed.

Lemma run_app acts1 acts2 w : run (acts1 ++ acts2) w = run acts2 (run acts1 w).
Proof. unfold run. apply fold_left_app. Qed.

Lemma same_panel_refl c : same_panel c c.
Proof. unfold same_panel. auto. Qed.

Lemma same_panel_trans c c1 c2 :
  same_panel c c1 -> same_panel c1 c2 -> same_panel c c2.
Proof. unfold same_panel. intros (? & ? & ?) (? & ? & ?). repeat split; congruence. Qed.

Lemma rendering_same_panel c c' text font_size position center :
  same_panel c c' ->
  rendering c' text font_size position center
  = rendering c text font_size position center.
Proof.
  intros (Hd & Hw & Hh). unfold rendering, _draw_text. rewrite Hd, Hw, Hh.
  reflexivity.
Qed.

Lemma cancel_current_self w : self (cancel_current w) = self w.
Proof.
  unfold cancel_current. destruct (current_task (self w)) as [h|]; [|reflexivity].
  destruct (nth_error (tasks w) h) as [t|]; [|reflexivity].
  destruct (negb (task_done t)); reflexivity.
Qed.

Lemma cancel_current_screen w : screen (cancel_current w) = screen w.
Proof.
  unfold cancel_current. destruct (current_task (self w)) as [h|]; [|reflexivity].
  destruct (nth_error (tasks w) h) as [t|]; [|reflexivity].
  destruct (negb (task_done t)); reflexivity.
Qed.

Lemma cancel_current_length w :
  List.length (tasks (cancel_current w)) = List.length (tasks w).
Proof.
  unfold cancel_current. destruct (current_task (self w)) as [h|]; [|reflexivity].
  destruct (nth_error (tasks w) h) as [t|]; [|reflexivity].
  destruct (negb (task_done t)); [|reflexivity].
  cbn. apply length_update_nth.
Qed.

Lemma step_same_panel w a : same_panel (self w) (self (step w a)).
Proof.
  destruct a as [text fs pos dur ce| | b | | h | dt]; cbn [step].
  - unfold show_text. destruct (truthy dur); cbn; rewrite cancel_current_self;
      unfold same_panel; cbn; auto.
  - apply same_panel_refl.
  - unfold same_panel. cbn. auto.
  - unfold shutdown. cbn. rewrite cancel_current_self. apply same_panel_refl.
  - unfold run_task. destruct (nth_error (tasks w) h) as [t|]; [|apply same_panel_refl].
    destruct (task_done t); [apply same_panel_refl|].
    destruct (t_must_cancel t); [apply same_panel_refl|].
    destruct (t_state t) as [|dl| |]; try apply same_panel_refl.
    destruct (clock w >=? dl)%Z; apply same_panel_refl.
  - apply same_panel_refl.
Qed.

Lemma run_same_panel acts : forall w, same_panel (self w) (self (run acts w)).
Proof.
  induction acts as [|a acts IH]; intros w.
  - apply same_panel_refl.
  - change (run (a :: acts) w) with (run acts (step w a)).
    eapply same_panel_trans; [apply step_same_panel|apply IH].
Qed.

(** After the cancellation at the head of [show_text] and [shutdown] no
    task can paint any more. *)
Lemma cancel_current_all_dead w :
  only_current_alive w -> all_dead (cancel_current w).
Proof.
  intros Hinv. unfold cancel_current.
  destruct (current_task (self w)) as [hc|] eqn:Hcur.
  - destruct (nth_error (tasks w) hc) as [tc|] eqn:Hnth.
    + destruct (task_done tc) eqn:Hdone; cbn [negb].
      * intros h t Ht. destruct (dead t) eqn:Hd; [reflexivity|].
        pose proof (Hinv h t Ht Hd) as Hh. rewrite Hcur in Hh.
        injection Hh as <-. rewrite Hnth in Ht. injection Ht as <-.
        unfold dead in Hd. rewrite Hdone in Hd. discriminate.
      * intros h t Ht. cbn in Ht. rewrite nth_error_update_nth in Ht.
        destruct (Nat.eqb_spec hc h) as [<-|Hne].
        -- rewrite Hnth in Ht. cbn in Ht. injection Ht as <-.
           unfold dead. cbn. apply orb_true_r.
        -- destruct (dead t) eqn:Hd; [reflexivity|].
           pose proof (Hinv h t Ht Hd) as Hh. rewrite Hcur in Hh.
           injection Hh as Hh. contradiction.
    + intros h t Ht. destruct (dead t) eqn:Hd; [reflexivity|].
      pose proof (Hinv h t Ht Hd) as Hh. rewrite Hcur in Hh.
      injection Hh as <-. rewrite Hnth in Ht. discriminate.
  - intros h t Ht. destruct (dead t) eqn:Hd; [reflexivity|].
    pose proof (Hinv h t Ht Hd) as Hh. rewrite Hcur in Hh. discriminate.
Qed.

Lemma all_dead_only_current w : all_dead w -> only_current_alive w.
Proof.
  intros H h t Ht Hd. rewrite (H h t Ht) in Hd. discriminate.
Qed.

(** Resuming a task that cannot paint changes neither the screen nor the
    controller, and no task comes back to life. *)
Lemma run_task_all_dead h w :
  all_dead w ->
  all_dead (run_task h w) /\ screen (run_task h w) = screen w /\
  self (run_task h w) = self w.
Proof.
  intros Hall. unfold run_task.
  destruct (nth_error (tasks w) h) as [t|] eqn:Hnth; [|auto].
  destruct (task_done t) eqn:Hdone; [auto|].
  pose proof (Hall h t Hnth) as Hd. unfold dead in Hd. rewrite Hdone in Hd.
  cbn in Hd. rewrite Hd. cbn. repeat split.
  intros h' t' Ht'. cbn in Ht'. rewrite nth_error_update_nth in Ht'.
  destruct (Nat.eqb_spec h h') as [<-|Hne]; [|eauto].
  rewrite Hnth in Ht'. cbn in Ht'. injection Ht' as <-. reflexivity.
Qed.

Lemma loop_steps_all_dead post : forall w,
  forallb is_loop_step post = true ->
  all_dead w ->
  all_dead (run post w) /\ screen (run post w) = screen w /\
  self (run post w) = self w.
Proof.
  induction post as [|a post IH]; intros w Hpost Hall; [cbn; auto|].
  change (run (a :: post) w) with (run post (step w a)).
  cbn in Hpost. apply andb_true_iff in Hpost. destruct Hpost as [Ha Hpost].
  destruct a as [text fs pos dur ce| | b | | h | dt]; try discriminate; cbn [step].
  - destruct (run_task_all_dead h w Hall) as (H1 & H2 & H3).
    destruct (IH (run_task h w) Hpost H1) as (H4 & H5 & H6).
    repeat split; [exact H4|congruence|congruence].
  - apply (IH (advance dt w) Hpost Hall).
Qed.

Lemma step_only_current w a :
  only_current_alive w -> only_current_alive (step w a).
Proof.
  intros Hinv.
  destruct a as [text fs pos dur ce| | b | | h | dt]; cbn [step];
    try exact Hinv.
  - pose proof (cancel_current_all_dead w Hinv) as Hdead.
    unfold show_text. destruct (truthy dur).
    + intros h t Ht Hd. cbn in *.
      destruct (Nat.lt_ge_cases h (List.length (tasks (cancel_current w))))
        as [Hlt|Hge].
      * rewrite nth_error_app1 in Ht by exact Hlt.
        rewrite (Hdead h t Ht) in Hd. discriminate.
      * rewrite nth_error_app2 in Ht by exact Hge.
        destruct (h - List.length (tasks (cancel_current w)))%nat as [|k] eqn:Hk.
        -- f_equal. lia.
        -- destruct k; discriminate.
    + apply all_dead_only_current. exact Hdead.
  - apply all_dead_only_current. exact (cancel_current_all_dead w Hinv).
  - unfold run_task. destruct (nth_error (tasks w) h) as [t|] eqn:Hnth; [|exact Hinv].
    destruct (task_done t) eqn:Hdone; [exact Hinv|].
    destruct (t_must_cancel t) eqn:Hmc.
    + intros h' t' Ht' Hd. cbn in Ht'. rewrite nth_error_update_nth in Ht'.
      destruct (Nat.eqb_spec h h') as [<-|Hne]; [|eauto].
      rewrite Hnth in Ht'. cbn in Ht'. injection Ht' as <-. discriminate.
    + assert (Hcur : current_task (self w) = Some h).
      { apply (Hinv h t Hnth). unfold dead. rewrite Hdone, Hmc. reflexivity. }
      destruct (t_state t) as [|dl| |] eqn:Hst; try exact Hinv.
      * intros h' t' Ht' Hd. cbn in Ht'. rewrite nth_error_update_nth in Ht'.
        destruct (Nat.eqb_spec h h') as [<-|Hne]; [exact Hcur|].
        exact (Hinv h' t' Ht' Hd).
      * destruct (clock w >=? dl)%Z; [|exact Hinv].
        intros h' t' Ht' Hd. cbn in Ht'. rewrite nth_error_update_nth in Ht'.
        destruct (Nat.eqb_spec h h') as [<-|Hne]; [exact Hcur|].
        exact (Hinv h' t' Ht' Hd).
Qed.

Lemma run_only_current acts : forall w,
  only_current_alive w -> only_current_alive (run acts w).
Proof.
  induction acts as [|a acts IH]; intros w H; [exact H|].
  change (run (a :: acts) w) with (run acts (step w a)).
  apply IH. apply step_only_current. exact H.
Qed.

Lemma initial_only_current c : only_current_alive (initial_world c).
Proof. intros h t Ht. destruct h; discriminate. Qed.

Lemma guarded_loop_step hb sc w a :
  is_loop_step a = true -> guarded hb sc w -> guarded hb sc (step w a).
Proof.
  intros Ha [G1 G2].
  destruct a as [text fs pos dur ce| | b | | h | dt]; try discriminate; cbn [step];
    [|split; [exact G1|exact G2]].
  unfold run_task. destruct (nth_error (tasks w) h) as [t|] eqn:Hnth;
    [|split; assumption].
  destruct (task_done t) eqn:Hdone; [split; assumption|].
  destruct (t_must_cancel t) eqn:Hmc.
  - assert (Hne : h <> hb).
    { intros ->. destruct (G2 t Hnth) as [Hf _]. congruence. }
    split.
    + intros h' t' Ht' Hh'. cbn in Ht'. rewrite nth_error_update_nth in Ht'.
      destruct (Nat.eqb_spec h h') as [<-|Hne']; [|eauto].
      rewrite Hnth in Ht'. cbn in Ht'. injection Ht' as <-. reflexivity.
    + intros t' Ht'. cbn in Ht'. rewrite nth_error_update_nth in Ht'.
      destruct (Nat.eqb_spec h hb) as [->|_]; [contradiction|].
      exact (G2 t' Ht').
  - assert (Hh : h = hb).
    { destruct (Nat.eq_dec h hb) as [|Hne]; [assumption|].
      pose proof (G1 h t Hnth Hne) as Hd. unfold dead in Hd.
      rewrite Hdone, Hmc in Hd. discriminate. }
    subst h. destruct (G2 t Hnth) as (_ & Hren & Hscr).
    destruct (t_state t) as [|dl| |] eqn:Hst; try (split; assumption).
    + split.
      * intros h' t' Ht' Hh'. cbn in Ht'. rewrite nth_error_update_nth in Ht'.
        destruct (Nat.eqb_spec hb h') as [<-|_]; [contradiction|eauto].
      * intros t' Ht'. cbn in Ht'. rewrite nth_error_update_nth in Ht'.
        rewrite Nat.eqb_refl, Hnth in Ht'. cbn in Ht'. injection Ht' as <-.
        cbn. repeat split; [exact Hmc|exact Hren|]. intros _ _. exact Hren.
    + destruct (clock w >=? dl)%Z; [|split; assumption].
      split.
      * intros h' t' Ht' Hh'. cbn in Ht'. rewrite nth_error_update_nth in Ht'.
        destruct (Nat.eqb_spec hb h') as [<-|_]; [contradiction|eauto].
      * intros t' Ht'. cbn in Ht'. rewrite nth_error_update_nth in Ht'.
        rewrite Nat.eqb_refl, Hnth in Ht'. cbn in Ht'. injection Ht' as <-.
        cbn. repeat split; [exact Hmc|exact Hren|]. intros u Hu. discriminate.
Qed.

Lemma guarded_loop_steps hb sc post : forall w,
  forallb is_loop_step post = true -> guarded hb sc w -> guarded hb sc (run post w).
Proof.
  induction post as [|a post IH]; intros w Hpost G; [exact G|].
  change (run (a :: post) w) with (run post (step w a)).
  cbn in Hpost. apply andb_true_iff in Hpost. destruct Hpost as [Ha Hpost].
  apply IH; [exact Hpost|]. apply guarded_loop_step; assumption.
Qed.

(** A [show_text] without a duration leaves its text on the screen and no
    task that could clear it. *)
Lemma show_untimed c w text fs pos ce post :
  only_current_alive w ->
  same_panel c (self w) ->
  forallb is_loop_step post = true ->
  screen (run post (show_text text fs pos None ce w)) = rendering c text fs pos ce.
Proof.
  intros Hinv Hpanel Hpost.
  pose proof (cancel_current_all_dead w Hinv) as Hdead.
  destruct (loop_steps_all_dead post (show_text text fs pos None ce w) Hpost)
    as (_ & Hscr & _).
  - exact Hdead.
  - rewrite Hscr. cbn. rewrite cancel_current_self.
    apply rendering_same_panel. exact Hpanel.
Qed.

(** A [show_text] with a duration leaves one task that can paint: its
    own. *)
Lemma show_timed_guarded c w text fs pos dur ce :
  only_current_alive w ->
  same_panel c (self w) ->
  truthy dur = true ->
  guarded (List.length (tasks w)) (rendering c text fs pos ce)
    (show_text text fs pos dur ce w).
Proof.
  intros Hinv Hpanel Hdur.
  pose proof (cancel_current_all_dead w Hinv) as Hdead.
  unfold show_text. rewrite Hdur. split.
  - intros h t Ht Hne. cbn in Ht.
    destruct (Nat.lt_ge_cases h (List.length (tasks (cancel_current w))))
      as [Hlt|Hge].
    + rewrite nth_error_app1 in Ht by exact Hlt. exact (Hdead h t Ht).
    + rewrite nth_error_app2 in Ht by exact Hge.
      rewrite cancel_current_length in *.
      destruct (h - List.length (tasks w))%nat as [|k] eqn:Hk; [lia|].
      destruct k; discriminate.
  - intros t Ht. cbn in Ht. rewrite <- cancel_current_length in Ht.
    rewrite nth_error_app2, Nat.sub_diag in Ht by lia.
    cbn in Ht. injection Ht as <-. cbn. rewrite cancel_current_self.
    repeat split.
    + apply rendering_same_panel. exact Hpanel.
    + intros u Hu. discriminate.
Qed.

(** C3: in every history in which [show_text] of A with a duration is
    followed, after anything else, by [show_text] of B without a duration,
    B stays on the screen through all later steps of the event loop: the
    task armed for A (and every earlier one) is cancelled before it can
    clear.  More generally, after any [show_text] of B with a duration, B
    is on the screen for as long as B's own task is waiting for its
    deadline: no task armed for earlier content erases it. *)
Theorem C3_render_preemption (c : DisplayController)
    (pre mid post : list Action)
    (text_a font_a : string) (pos_a : option (Z * Z)) (d : Z) (center_a : bool)
    (text_b font_b : string) (pos_b : option (Z * Z)) (center_b : bool)
    (Hpost : forallb is_loop_step post = true) :
  screen (run (pre ++ AShow text_a font_a pos_a (Some d) center_a
                   :: mid ++ AShow text_b font_b pos_b None center_b :: post)
            (initial_world c))
    = rendering c text_b font_b pos_b center_b /\
  (forall hist dur,
     truthy dur = true ->
     forall t u,
       nth_error
         (tasks (run (hist ++ AShow text_b font_b pos_b dur center_b :: post)
                   (initial_world c)))
         (List.length (tasks (run hist (initial_world c)))) = Some t ->
       t_state t = Sleeping u ->
       screen (run (hist ++ AShow text_b font_b pos_b dur center_b :: post)
                 (initial_world c))
         = rendering c text_b font_b pos_b center_b).
Proof.
  split.
  - rewrite app_comm_cons, app_assoc, run_app.
    change (run (AShow text_b font_b pos_b None center_b :: post) ?w)
      with (run post (show_text text_b font_b pos_b None center_b w)).
    apply show_untimed; [| |exact Hpost].
    + apply run_only_current. apply initial_only_current.
    + apply (run_same_panel _ (initial_world c)).
  - intros hist dur Hdur t u. rewrite run_app.
    change (run (AShow text_b font_b pos_b dur center_b :: post) ?w)
      with (run post (show_text text_b font_b pos_b dur center_b w)).
    intros Ht Hu.
    assert (G : guarded (List.length (tasks (run hist (initial_world c))))
                  (rendering c text_b font_b pos_b center_b)
                  (run post (show_text text_b font_b pos_b dur center_b
                               (run hist (initial_world c))))).
    { apply guarded_loop_steps; [exact Hpost|].
      apply show_timed_guarded; [| |exact Hdur].
      - apply run_only_current. apply initial_only_current.
      - apply (run_same_panel _ (initial_world c)). }
    destruct G as [_ G2]. destruct (G2 t Ht) as (_ & _ & Hscr).
    exact (Hscr u Hu).
Qed.

(** The scenario of the specification: "A" for two seconds, its task
    starts, one second later "B" without a duration; three seconds later
    the event loop resumes the task of "A", and "B" is still shown. *)
Lemma C3_render_preemption_witness :
  forallb is_loop_step [ATick 3; ARun 0] = true /\
  screen (run ([] ++ show_a :: [ARun 0; ATick 1] ++ show_b :: [ATick 3; ARun 0])
            (initial_world controller))
    = Painted [DrawText 61 24 "B" font_medium 255].
Proof.
  split; [reflexivity|].
  exact (proj1 (C3_render_preemption controller [] [ARun 0; ATick 1] [ATick 3; ARun 0]
                  "A" "medium" None 2 true "B" "medium" None true eq_refl)).
Defined.

(** While the task of a timed "B" sleeps, "B" is on the screen, also when
    the cancelled task of "A" is resumed after its two seconds. *)
Example timed_b_guarded :
  screen (run (([show_a; ARun 0; ATick 1])
                 ++ AShow "B" "medium" None (Some 5) true :: [ARun 1; ATick 3; ARun 0])
            (initial_world controller))
    = Painted [DrawText 61 24 "B" font_medium 255].
Proof. reflexivity. Qed.

(** Without the second [show_text] the task of "A" does clear the screen
    once its two seconds have passed. *)
Example auto_clear_fires :
  screen (run [show_a; ARun 0; ATick 1] (initial_world controller))
    = Painted [DrawText 61 24 "A" font_medium 255] /\
  screen (run [show_a; ARun 0; ATick 1; ATick 3; ARun 0] (initial_world controller))
    = Painted [DrawRectangle (0, 0, 127, 63) 0 0].
Proof. split; reflexivity. Qed.

(** ** Further properties of base_input.py *)

(** *** What a fetch step and a pass of the loop do, exactly *)

Lemma notify_one_quiet nm d cb s : sleeps (events_of (notify_one nm d cb s)) = [].
Proof.
  unfold notify_one, call, try_except, bind, emit, raise, ret, listener_error.
  destruct (cb_is_coroutine cb), (cb_call cb d); reflexivity.
Qed.

Lemma sleeps_app evs1 evs2 : sleeps (evs1 ++ evs2) = (sleeps evs1 ++ sleeps evs2)%list.
Proof. unfold sleeps. apply flat_map_app. Qed.

Lemma deliveries_app evs1 evs2 :
  deliveries (evs1 ++ evs2) = (deliveries evs1 ++ deliveries evs2)%list.
Proof. unfold deliveries. apply flat_map_app. Qed.

Lemma notify_all_quiet nm d cbs s :
  sleeps (events_of (for_each cbs (notify_one nm d) s)) = [].
Proof.
  induction cbs as [|cb cbs IH]; [reflexivity|].
  cbn [for_each]. unfold bind.
  pose proof (notify_one_quiet nm d cb s) as Hq.
  destruct (notify_one_run nm d cb s) as (e1 & Hrun & _).
  rewrite Hrun in Hq |- *.
  destruct (for_each_notify_run nm d cbs s) as (e2 & Hrun2 & _).
  rewrite Hrun2 in IH |- *.
  unfold events_of in *. cbn [snd] in *. rewrite sleeps_app, Hq, IH. reflexivity.
Qed.

(** [add_data] in full: its value, the state it leaves and its effects. *)
Lemma notify_listeners_quiet d s : sleeps (events_of (_notify_listeners d s)) = [].
Proof.
  pose proof (notify_all_quiet (name s) d (data_listeners s) s) as Hq.
  unfold _notify_listeners, bind, get.
  destruct (for_each (data_listeners s) (notify_one (name s) d) s) as [[r s'] evs].
  exact Hq.
Qed.

Lemma add_data_exact d s :
  exists evs,
    add_data d s = (Return tt, after (add_data d) s, evs) /\
    sleeps evs = [] /\
    deliveries evs = map (fun cb => (cb_id cb, d)) (data_listeners s) /\
    (forall cb e, In cb (data_listeners s) -> cb_call cb d = Some e ->
                  In (listener_error (name s) e) evs).
Proof.
  unfold after, add_data, bind, modify.
  match goal with
  | |- context [_notify_listeners d ?st] =>
      pose proof (notify_listeners_quiet d st) as Hq;
      destruct (notify_listeners_run d st) as (evs & Hrun & Hd & Hl);
      rewrite Hrun in Hq |- *
  end.
  exists evs. split; [reflexivity|]. split; [exact Hq|]. split; [exact Hd|exact Hl].
Qed.

Lemma add_data_fields d s :
  exists l, after (add_data d) s = set_current_data l s.
Proof.
  unfold after. destruct (add_data_run d s) as (evs & ->). cbn. eauto.
Qed.

Lemma add_all_fields ds : forall s, exists l, add_all ds s = set_current_data l s.
Proof.
  induction ds as [|d ds IH]; intros s.
  - exists (current_data s). destruct s; reflexivity.
  - cbn [add_all fold_left].
    destruct (add_data_fields d s) as (l1 & ->).
    destruct (IH (set_current_data l1 s)) as (l2 & Hl2).
    exists l2. unfold add_all in Hl2. rewrite Hl2. reflexivity.
Qed.

Lemma add_all_listeners ds s : data_listeners (add_all ds s) = data_listeners s.
Proof. destruct (add_all_fields ds s) as (l & ->). reflexivity. Qed.

(** The [for] loop of a fetch step that hands [added] to [add_data]. *)
Lemma for_each_add_data_exact added : forall s,
  exists evs,
    for_each added add_data s = (Return tt, add_all added s, evs) /\
    sleeps evs = [] /\
    deliveries evs =
      flat_map (fun d => map (fun cb => (cb_id cb, d)) (data_listeners s)) added.
Proof.
  induction added as [|d added IH]; intros s.
  - exists []. repeat split.
  - cbn [for_each]. unfold bind.
    destruct (add_data_exact d s) as (e1 & -> & Hs1 & Hd1 & _).
    destruct (IH (after (add_data d) s)) as (e2 & -> & Hs2 & Hd2).
    exists (e1 ++ e2)%list. split; [reflexivity|]. split.
    + rewrite sleeps_app, Hs1, Hs2. reflexivity.
    + rewrite deliveries_app, Hd1, Hd2. cbn [flat_map].
      destruct (add_data_fields d s) as (l & ->). reflexivity.
Qed.

(** A pass in which the fetch step raises. *)
Lemma failing_pass tk s :
  failing_tick s tk = true ->
  exists evs,
    loop_body tk s =
    (Return (error_count s + 1 >=? max_errors s),
     (if error_count s + 1 >=? max_errors s
      then set_running false
             (set_error_count (error_count s + 1) (add_all (fetched (tk_fetch tk)) s))
      else set_error_count (error_count s + 1) (add_all (fetched (tk_fetch tk)) s)),
     evs) /\
    sleeps evs = (if error_count s + 1 >=? max_errors s then [] else [30]) /\
    deliveries evs =
      flat_map (fun d => map (fun cb => (cb_id cb, d)) (data_listeners s))
        (fetched (tk_fetch tk)).
Proof.
  unfold failing_tick. intros H. apply andb_true_iff in H. destruct H as [Hup Hr].
  unfold loop_body, try_except.
  unfold bind at 1. unfold get at 1. rewrite Hup.
  unfold bind at 1. unfold bind at 1.
  destruct (tk_fetch tk) as [added|added e]; [discriminate|].
  cbn [_fetch_data fetched]. unfold bind at 1.
  destruct (for_each_add_data_exact added s) as (evs & -> & Hs & Hd).
  destruct (add_all_fields added s) as (l & Hl). rewrite Hl.
  unfold bind, modify, get, emit, ret, raise. cbn.
  destruct (error_count s + 1 >=? max_errors s); cbn;
    eexists; (split; [reflexivity|]);
    rewrite !sleeps_app, !deliveries_app, Hs, Hd; cbn;
    rewrite !app_nil_r; auto.
Qed.

(** A pass in which the fetch step returns. *)
Lemma succeeding_pass tk s :
  succeeding_tick s tk = true ->
  exists evs,
    loop_body tk s =
    (Return false,
     after (_clean_expired_data (tk_after tk))
       (set_error_count 0
          (set_last_update (Some (tk_after tk)) (add_all (fetched (tk_fetch tk)) s))),
     evs) /\
    sleeps evs = [Z.min (update_interval s) 10] /\
    deliveries evs =
      flat_map (fun d => map (fun cb => (cb_id cb, d)) (data_listeners s))
        (fetched (tk_fetch tk)).
Proof.
  unfold succeeding_tick. intros H. apply andb_true_iff in H. destruct H as [Hup Hr].
  unfold loop_body, try_except.
  unfold bind at 1. unfold get at 1. rewrite Hup.
  unfold bind at 1. unfold bind at 1.
  destruct (tk_fetch tk) as [added|added e]; [|discriminate].
  cbn [_fetch_data fetched].
  destruct (for_each_add_data_exact added s) as (evs & -> & Hs & Hd).
  destruct (add_all_fields added s) as (l & Hl). rewrite Hl.
  unfold bind, modify, get, emit, ret, _clean_expired_data, modify, after. cbn.
  eexists. split; [reflexivity|].
  rewrite !sleeps_app, !deliveries_app, Hs, Hd. cbn. rewrite !app_nil_r. auto.
Qed.

(** A pass in which no fetch is due. *)
Lemma idle_pass tk s :
  _should_update (tk_now tk) s = false ->
  loop_body tk s =
  (Return false, after (_clean_expired_data (tk_after tk)) s,
   [Sleep (Z.min (update_interval s) 10)]).
Proof.
  intros Hup. unfold loop_body, try_except.
  unfold bind at 1. unfold get at 1. rewrite Hup.
  reflexivity.
Qed.

(** Every pass is of one of the three sorts. *)
Lemma pass_sorts tk s :
  failing_tick s tk = true \/ succeeding_tick s tk = true \/
  _should_update (tk_now tk) s = false.
Proof.
  unfold failing_tick, succeeding_tick.
  destruct (_should_update (tk_now tk) s), (fetch_raises (tk_fetch tk)); auto.
Qed.

(** *** The collection after a run of add_data calls *)

Lemma keep_last_snoc ds d :
  keep_last (ds ++ [d]) =
  (filter (fun x => negb (same_key x d)) (keep_last ds) ++ [d])%list.
Proof.
  induction ds as [|a ds IH]; [reflexivity|].
  cbn [app keep_last]. rewrite existsb_app. cbn [existsb]. rewrite orb_false_r.
  destruct (existsb (same_key a) ds); cbn [orb].
  - exact IH.
  - destruct (same_key a d) eqn:Had; cbn [filter]; rewrite Had; cbn [negb].
    + exact IH.
    + rewrite IH. reflexivity.
Qed.

Lemma keep_last_shorter ds : (List.length (keep_last ds) <= List.length ds)%nat.
Proof.
  induction ds as [|d ds IH]; cbn [keep_last List.length]; [lia|].
  destruct (existsb (same_key d) ds); cbn [List.length]; lia.
Qed.

(** X1: after any sequence of [add_data] calls on a new source the
    collection holds, in order of arrival, exactly the records that no
    later call replaced, that is those not followed by a record of the
    same (source, data_type); so the [data_count] that [get_status]
    reports never exceeds the number of calls. *)
Theorem collection_keeps_last_per_key (ds : list InputData) (nm : string)
    (e : option bool) (i m : option Z) (isoformat : datetime -> string) :
  current_data (add_all ds (BaseInput_init nm e i m)) = keep_last ds /\
  st_data_count (get_status isoformat (add_all ds (BaseInput_init nm e i m)))
    = List.length (keep_last ds) /\
  (st_data_count (get_status isoformat (add_all ds (BaseInput_init nm e i m)))
   <= List.length ds)%nat.
Proof.
  assert (H : current_data (add_all ds (BaseInput_init nm e i m)) = keep_last ds).
  { induction ds as [|d ds IH] using rev_ind; [reflexivity|].
    rewrite add_all_snoc, add_data_current, IH, keep_last_snoc. reflexivity. }
  split; [exact H|]. cbn [get_status st_data_count]. rewrite H.
  split; [reflexivity|apply keep_last_shorter].
Qed.

(** *** Pruning *)

Lemma expiry_is_monotone now now' d :
  now <= now' -> is_expired now d = true -> is_expired now' d = true.
Proof.
  unfold is_expired. destruct (expires_at d) as [e|]; [|discriminate].
  intros Hle H. apply Z.gtb_lt in H. apply Z.gtb_lt. lia.
Qed.

(** X2: a pruning pass at time [now] keeps exactly the records that are
    not expired at [now]; pruning again at [now] or at any later time
    after it gives what a single pruning at the later time gives; and
    the collection never grows. *)
Theorem pruning_pass (now : datetime) (s : BaseInput) :
  (forall r, In r (current_data (after (_clean_expired_data now) s)) <->
             In r (current_data s) /\ is_expired now r = false) /\
  (forall now', now <= now' ->
     after (_clean_expired_data now') (after (_clean_expired_data now) s)
     = after (_clean_expired_data now') s) /\
  after (_clean_expired_data now) (after (_clean_expired_data now) s)
    = after (_clean_expired_data now) s /\
  (List.length (current_data (after (_clean_expired_data now) s))
   <= List.length (current_data s))%nat.
Proof.
  assert (Hcomp : forall now', now <= now' ->
     after (_clean_expired_data now') (after (_clean_expired_data now) s)
     = after (_clean_expired_data now') s).
  { intros now' Hle.
    unfold after, _clean_expired_data, modify, state_of, set_current_data. cbn.
    rewrite filter_filter_weaker; [reflexivity|].
    intros x Hx. destruct (is_expired now x) eqn:Hex; [|reflexivity].
    rewrite (expiry_is_monotone now now' x Hle Hex) in Hx. discriminate. }
  split; [|split; [exact Hcomp|split]].
  - intros r. rewrite clean_current, filter_In, negb_true_iff. tauto.
  - apply Hcomp. lia.
  - rewrite clean_current. apply filter_length_le.
Qed.

(** *** add_data and its listeners *)

Lemma same_key_refl d : same_key d d = true.
Proof. apply same_key_iff. reflexivity. Qed.

Lemma add_data_live_run fuel d x :
  add_data_live fuel d x =
  (fst (fst (notify_live fuel (name (live_base x)) d 0 (live_listeners x))),
   mkLive
     (set_current_data
        (filter (fun r => negb (same_key r d)) (current_data (live_base x)) ++ [d])%list
        (live_base x))
     (snd (fst (notify_live fuel (name (live_base x)) d 0 (live_listeners x)))),
   snd (notify_live fuel (name (live_base x)) d 0 (live_listeners x))).
Proof.
  unfold add_data_live. cbn [name set_current_data].
  destruct (notify_live fuel (name (live_base x)) d 0 (live_listeners x))
    as [[ending ls] evs]. reflexivity.
Qed.

(** X3: [add_data] stores before it notifies.  However the calls of the
    listeners end and whichever listeners they register, also when a
    [KeyboardInterrupt] or an [asyncio.CancelledError] of a listener
    leaves [add_data], the record is in the collection afterwards, every
    record of another (source, data_type) is still there, and adding the
    same record twice leaves the collection as adding it once.  (The
    listeners do not write to the collection themselves.)  When the
    listeners raise instances of [Exception] only and register no
    listener, [add_data] ends normally, having called each listener once
    in registration order. *)
Theorem add_data_stores_before_notifying (fuel : nat) (d : InputData)
    (x : LiveInput) :
  current_data (live_base (live_state (add_data_live fuel d x)))
    = current_data (after (add_data d) (live_base x)) /\
  In d (current_data (live_base (live_state (add_data_live fuel d x)))) /\
  (forall r, In r (current_data (live_base x)) -> same_key r d = false ->
             In r (current_data (live_base (live_state (add_data_live fuel d x))))) /\
  current_data (live_base (live_state
     (add_data_live fuel d (live_state (add_data_live fuel d x)))))
    = current_data (live_base (live_state (add_data_live fuel d x))) /\
  (Forall (well_behaved d) (live_listeners x) ->
   (List.length (live_listeners x) < fuel)%nat ->
   live_end (add_data_live fuel d x) = Completed /\
   live_listeners (live_state (add_data_live fuel d x)) = live_listeners x /\
   deliveries (live_events (add_data_live fuel d x))
     = map (fun l => (ls_id l, d)) (live_listeners x)).
Proof.
  assert (Hcur : forall y,
    current_data (live_base (live_state (add_data_live fuel d y)))
    = (filter (fun r => negb (same_key r d)) (current_data (live_base y)) ++ [d])%list).
  { intros y. rewrite add_data_live_run. reflexivity. }
  split; [rewrite Hcur, add_data_current; reflexivity|].
  split; [rewrite Hcur; apply in_or_app; right; left; reflexivity|].
  split; [|split].
  - intros r Hin Hk. rewrite Hcur. apply in_or_app. left.
    apply filter_In. rewrite Hk. auto.
  - rewrite !Hcur, filter_app. cbn [filter].
    rewrite same_key_refl. cbn [negb]. rewrite app_nil_r.
    rewrite filter_filter_weaker; auto.
  - intros Hw Hfuel. rewrite add_data_live_run.
    unfold live_end, live_state, live_events. cbn [fst snd live_listeners].
    rewrite (pass_from_start (name (live_base x)) d (live_listeners x) fuel Hw Hfuel).
    cbn [fst snd]. repeat split.
    clear Hw Hfuel. induction (live_listeners x) as [|l ls IH]; [reflexivity|].
    cbn [flat_map map]. rewrite deliveries_concat, IH.
    rewrite (proj1 (turn_of_listener (name (live_base x)) d l)). reflexivity.
Qed.

Lemma add_data_stores_before_notifying_witness :
  live_end (add_data_live 4 time_record (mkLive fresh_input [calm; interrupted; late]))
    = Escaped (mkExc OfBaseException "KeyboardInterrupt") /\
  In time_record
     (current_data (live_base (live_state
        (add_data_live 4 time_record (mkLive fresh_input [calm; interrupted; late]))))).
Proof.
  split; [reflexivity|].
  exact (proj1 (proj2 (add_data_stores_before_notifying 4 time_record
                         (mkLive fresh_input [calm; interrupted; late])))).
Defined.






(** *** Runs of the update loop *)

Lemma update_loop_continue tk rest s s1 ev1 :
  running s = true ->
  loop_body tk s = (Return false, s1, ev1) ->
  _update_loop (tk :: rest) s =
  (result_of (_update_loop rest s1), state_of (_update_loop rest s1),
   (ev1 ++ events_of (_update_loop rest s1))%list).
Proof.
  intros Hrun Hbody. cbn [_update_loop]. rewrite Hrun, Hbody.
  destruct (_update_loop rest s1) as [[st s2] ev2]. reflexivity.
Qed.

Lemma update_loop_break tk rest s s1 ev1 :
  running s = true ->
  loop_body tk s = (Return true, s1, ev1) ->
  _update_loop (tk :: rest) s = (LoopExited, s1, ev1).
Proof. intros Hrun Hbody. cbn [_update_loop]. rewrite Hrun, Hbody. reflexivity. Qed.

Lemma update_loop_stopped ticks s :
  running s = false -> _update_loop ticks s = (LoopExited, s, []).
Proof. intros H. destruct ticks; cbn [_update_loop]; rewrite H; reflexivity. Qed.

Lemma add_all_unchanged_fields ds s :
  running (add_all ds s) = running s /\
  error_count (add_all ds s) = error_count s /\
  max_errors (add_all ds s) = max_errors s /\
  last_update (add_all ds s) = last_update s /\
  update_interval (add_all ds s) = update_interval s.
Proof. destruct (add_all_fields ds s) as (l & ->). cbn. auto. Qed.

(** What one pass does to the fields the loop is steered by. *)
Lemma pass_control tk s :
  exists b s1 ev1,
    loop_body tk s = (Return b, s1, ev1) /\
    max_errors s1 = max_errors s /\
    update_interval s1 = update_interval s /\
    (failing_tick s tk = true ->
       error_count s1 = error_count s + 1 /\
       last_update s1 = last_update s /\
       b = (error_count s + 1 >=? max_errors s) /\
       running s1 = (if b then false else running s) /\
       sleeps ev1 = (if b then [] else [30])) /\
    (succeeding_tick s tk = true ->
       error_count s1 = 0 /\ last_update s1 = Some (tk_after tk) /\
       b = false /\ running s1 = running s /\
       sleeps ev1 = [Z.min (update_interval s) 10]) /\
    (_should_update (tk_now tk) s = false ->
       error_count s1 = error_count s /\ last_update s1 = last_update s /\
       b = false /\ running s1 = running s /\
       sleeps ev1 = [Z.min (update_interval s) 10]).
Proof.
  pose proof (add_all_unchanged_fields (fetched (tk_fetch tk)) s)
    as (Hr & He & Hm & Hl & Hi).
  destruct (pass_sorts tk s) as [Hf|[Hs|Hn]].
  - destruct (failing_pass tk s Hf) as (evs & Hbody & Hsl & _).
    do 3 eexists. split; [exact Hbody|].
    assert (Hns : succeeding_tick s tk = false).
    { unfold failing_tick, succeeding_tick in *.
      destruct (_should_update (tk_now tk) s), (fetch_raises (tk_fetch tk));
        try discriminate; reflexivity. }
    assert (Hup : _should_update (tk_now tk) s = true).
    { unfold failing_tick in Hf. apply andb_true_iff in Hf. tauto. }
    destruct (error_count s + 1 >=? max_errors s); cbn;
      rewrite ?Hr, ?He, ?Hm, ?Hl, ?Hi;
      (split; [reflexivity|]); (split; [reflexivity|]);
      (split; [intros _; auto 10|]);
      (split; [intros H; congruence|intros H; congruence]).
  - destruct (succeeding_pass tk s Hs) as (evs & Hbody & Hsl & _).
    do 3 eexists. split; [exact Hbody|].
    assert (Hnf : failing_tick s tk = false).
    { unfold failing_tick, succeeding_tick in *.
      destruct (_should_update (tk_now tk) s), (fetch_raises (tk_fetch tk));
        try discriminate; reflexivity. }
    assert (Hup : _should_update (tk_now tk) s = true).
    { unfold succeeding_tick in Hs. apply andb_true_iff in Hs. tauto. }
    cbn. rewrite ?Hr, ?He, ?Hm, ?Hl, ?Hi.
    split; [reflexivity|]. split; [reflexivity|].
    split; [intros H; congruence|]. split; [auto 10|intros H; congruence].
  - rewrite (idle_pass tk s Hn). do 3 eexists. split; [reflexivity|].
    assert (Hnf : failing_tick s tk = false)
      by (unfold failing_tick; rewrite Hn; reflexivity).
    assert (Hns : succeeding_tick s tk = false)
      by (unfold succeeding_tick; rewrite Hn; reflexivity).
    cbn. split; [reflexivity|]. split; [reflexivity|].
    split; [intros H; congruence|]. split; [intros H; congruence|auto 10].
Qed.



(** Without a [stop()] the loop with its program is the loop alone. *)
Lemma loop_without_stop ticks : forall s,
  _update_loop_with_stop (map (fun tk => mkTurn tk false) ticks) s
  = _update_loop ticks s.
Proof.
  induction ticks as [|tk rest IH]; intros s; [reflexivity|].
  cbn [map _update_loop_with_stop _update_loop tn_tick tn_stop].
  destruct (running s); [|reflexivity].
  destruct (loop_body tk s) as [[[[]|e] s1] ev1]; try reflexivity.
  change (state_of (ret tt s1)) with s1. rewrite IH.
  destruct (_update_loop rest s1) as [[st s2] ev2]. reflexivity.
Qed.



(** X6: after a fetch stamped [t], in passes whose clock reading is
    earlier than [t + update_interval] the loop fetches nothing and calls
    no listener: [last_update] and the counter stay as they are, the
    collection can only lose records, and each pass sleeps
    [min(update_interval, 10)] seconds. *)
Theorem no_fetch_before_interval (s : BaseInput) (t : datetime) (ticks : list Tick)
    (Hrun : running s = true) (Hlast : last_update s = Some t)
    (Hearly : Forall (fun tk => tk_now tk < t + update_interval s) ticks) :
  result_of (_update_loop ticks s) = LoopAlive /\
  last_update (state_of (_update_loop ticks s)) = Some t /\
  error_count (state_of (_update_loop ticks s)) = error_count s /\
  deliveries (events_of (_update_loop ticks s)) = [] /\
  (forall r, In r (current_data (state_of (_update_loop ticks s))) ->
             In r (current_data s)) /\
  sleeps (events_of (_update_loop ticks s))
    = repeat (Z.min (update_interval s) 10) (List.length ticks).
Proof.
  revert s Hrun Hlast Hearly.
  induction ticks as [|tk rest IH]; intros s Hrun Hlast Hearly.
  - cbn [_update_loop]. rewrite Hrun. cbn. auto 10.
  - inversion Hearly as [|? ? Htk Hrest]; subst.
    assert (Hidle : _should_update (tk_now tk) s = false).
    { unfold _should_update. rewrite Hlast.
      destruct (Z.geb_spec (tk_now tk - t) (update_interval s)); [lia|reflexivity]. }
    rewrite (update_loop_continue tk rest s _ _ Hrun (idle_pass tk s Hidle)).
    unfold result_of, state_of, events_of. cbn [fst snd].
    fold (result_of (_update_loop rest (after (_clean_expired_data (tk_after tk)) s))).
    fold (state_of (_update_loop rest (after (_clean_expired_data (tk_after tk)) s))).
    fold (events_of (_update_loop rest (after (_clean_expired_data (tk_after tk)) s))).
    destruct (IH (after (_clean_expired_data (tk_after tk)) s) Hrun Hlast Hrest)
      as (H1 & H2 & H3 & H4 & H5 & H6).
    repeat split; auto.
    + intros r Hr. apply H5 in Hr. rewrite clean_current in Hr.
      apply filter_In in Hr. tauto.
    + cbn [app sleeps flat_map List.length repeat].
      fold (sleeps (events_of (_update_loop rest (after (_clean_expired_data (tk_after tk)) s)))).
      rewrite H6. reflexivity.
Qed.

Lemma no_fetch_before_interval_witness :
  last_update (after (modify (set_last_update (Some 100))) flaky_input) = Some 100 /\
  deliveries
    (events_of (_update_loop [good_tick 110; good_tick 120]
                  (after (modify (set_last_update (Some 100))) flaky_input))) = [].
Proof.
  split; [reflexivity|].
  apply (no_fetch_before_interval
           (after (modify (set_last_update (Some 100))) flaky_input) 100
           [good_tick 110; good_tick 120] eq_refl eq_refl).
  repeat constructor.
Defined.

Lemma add_all_keeps_other_keys ds : forall s r,
  In r (current_data s) ->
  Forall (fun d => same_key r d = false) ds ->
  In r (current_data (add_all ds s)).
Proof.
  induction ds as [|d ds IH]; intros s r Hin Hall; [exact Hin|].
  inversion Hall as [|? ? Hd Hrest]; subst.
  cbn [add_all fold_left]. apply IH; [|exact Hrest].
  rewrite add_data_current. apply in_or_app. left.
  apply filter_In. rewrite Hd. auto.
Qed.

(** X7: a pass whose fetch step raises does no pruning.  The collection
    is left as the [add_data] calls made before the exception left it:
    every record whose (source, data_type) the fetch did not add again is
    still resident, expired or not, and [last_update] is not advanced. *)
Theorem failed_pass_skips_pruning (tk : Tick) (s : BaseInput)
    (Hfail : failing_tick s tk = true) :
  current_data (state_of (loop_body tk s))
    = current_data (add_all (fetched (tk_fetch tk)) s) /\
  (forall r, In r (current_data s) ->
             Forall (fun d => same_key r d = false) (fetched (tk_fetch tk)) ->
             In r (current_data (state_of (loop_body tk s)))) /\
  last_update (state_of (loop_body tk s)) = last_update s.
Proof.
  destruct (failing_pass tk s Hfail) as (evs & -> & _).
  pose proof (add_all_unchanged_fields (fetched (tk_fetch tk)) s) as (_ & _ & _ & Hl & _).
  assert (Hcur : current_data
                   (state_of
                      (Return (error_count s + 1 >=? max_errors s),
                       (if error_count s + 1 >=? max_errors s
                        then set_running false
                               (set_error_count (error_count s + 1)
                                  (add_all (fetched (tk_fetch tk)) s))
                        else set_error_count (error_count s + 1)
                               (add_all (fetched (tk_fetch tk)) s)), evs))
                 = current_data (add_all (fetched (tk_fetch tk)) s)).
  { destruct (error_count s + 1 >=? max_errors s); reflexivity. }
  split; [exact Hcur|]. split.
  - intros r Hin Hall. rewrite Hcur. apply add_all_keeps_other_keys; assumption.
  - destruct (error_count s + 1 >=? max_errors s); cbn; exact Hl.
Qed.

Lemma failed_pass_skips_pruning_witness :
  failing_tick time_state (bad_tick 500) = true /\
  is_expired 500 time_record = true /\
  In time_record (current_data (state_of (loop_body (bad_tick 500) time_state))).
Proof.
  split; [reflexivity|]. split; [reflexivity|].
  apply (proj1 (proj2 (failed_pass_skips_pruning (bad_tick 500) time_state eq_refl))).
  - left. reflexivity.
  - constructor.
Defined.

(** X8: after a pass whose fetch step did not raise (it returned, or
    none was due) no resident record is expired at the time of the
    pruning, the records just fetched included. *)
Theorem clean_pass_prunes (tk : Tick) (s : BaseInput)
    (Hclean : failing_tick s tk = false) :
  forall r, In r (current_data (state_of (loop_body tk s))) ->
            is_expired (tk_after tk) r = false.
Proof.
  intros r. destruct (pass_sorts tk s) as [Hf|[Hs|Hn]]; [congruence| |].
  - destruct (succeeding_pass tk s Hs) as (evs & -> & _).
    unfold state_of. cbn [fst snd]. rewrite clean_current.
    intros Hin. apply filter_In in Hin. apply negb_true_iff. tauto.
  - rewrite (idle_pass tk s Hn). unfold state_of. cbn [fst snd].
    rewrite clean_current.
    intros Hin. apply filter_In in Hin. apply negb_true_iff. tauto.
Qed.

Lemma clean_pass_prunes_witness :
  failing_tick time_state (good_tick 500) = false /\
  is_expired 500 time_record = true /\
  current_data (state_of (loop_body (good_tick 500) time_state)) = [] /\
  (In time_record (current_data (state_of (loop_body (good_tick 500) time_state))) ->
   is_expired 500 time_record = false).
Proof.
  split; [reflexivity|]. split; [reflexivity|]. split; [reflexivity|].
  exact (clean_pass_prunes (good_tick 500) time_state eq_refl time_record).
Defined.

(** X9: the loop never sleeps for more than thirty seconds at a time:
    every [asyncio.sleep] of a run lasts [min(update_interval, 10)]
    seconds, after a pass without an error, or 30 seconds, after a failed
    fetch. *)
Theorem loop_sleeps_bounded (ticks : list Tick) (s : BaseInput) :
  Forall (fun n => (n = 30 \/ n = Z.min (update_interval s) 10) /\ n <= 30)
    (sleeps (events_of (_update_loop ticks s))).
Proof.
  revert s. induction ticks as [|tk rest IH]; intros s.
  - cbn [_update_loop]. destruct (running s); constructor.
  - destruct (running s) eqn:Hrun;
      [|rewrite update_loop_stopped by exact Hrun; constructor].
    destruct (pass_control tk s) as (b & s1 & ev1 & Hbody & _ & Hi & Hf & Hs & Hn).
    assert (Hev : Forall (fun n => (n = 30 \/ n = Z.min (update_interval s) 10) /\ n <= 30)
                    (sleeps ev1)).
    { destruct (pass_sorts tk s) as [H|[H|H]].
      - destruct (Hf H) as (_ & _ & _ & _ & ->).
        destruct b; repeat constructor; lia.
      - destruct (Hs H) as (_ & _ & _ & _ & ->). repeat constructor; lia.
      - destruct (Hn H) as (_ & _ & _ & _ & ->). repeat constructor; lia. }
    destruct b.
    + rewrite (update_loop_break tk rest s s1 ev1 Hrun Hbody). exact Hev.
    + rewrite (update_loop_continue tk rest s s1 ev1 Hrun Hbody).
      unfold events_of at 1. cbn [snd]. rewrite sleeps_app.
      apply Forall_app. split; [exact Hev|].
      specialize (IH s1). rewrite Hi in IH. exact IH.
Qed.

(** X10: a failed fetch is tried again in the next pass: after a pass
    whose fetch raised, a fetch is due at every later clock reading,
    whatever [update_interval] is; after a pass whose fetch returned, the
    next fetch is due exactly from [update_interval] seconds after the
    time stored in [last_update]. *)
Theorem fetch_due_after_pass (tk : Tick) (s : BaseInput) :
  (failing_tick s tk = true ->
   forall now', tk_now tk <= now' ->
     _should_update now' (state_of (loop_body tk s)) = true) /\
  (succeeding_tick s tk = true ->
   forall now',
     _should_update now' (state_of (loop_body tk s)) = true
     <-> tk_after tk + update_interval s <= now').
Proof.
  destruct (pass_control tk s) as (b & s1 & ev1 & -> & _ & Hi & Hf & Hs & _).
  unfold state_of. cbn [fst snd]. split.
  - intros H now' Hle. destruct (Hf H) as (_ & Hl & _).
    unfold failing_tick in H. apply andb_true_iff in H. destruct H as [Hup _].
    unfold _should_update in *. rewrite Hl, Hi.
    destruct (last_update s) as [t|]; [|reflexivity].
    apply Z.geb_le. apply Z.geb_le in Hup. lia.
  - intros H now'. destruct (Hs H) as (_ & Hl & _).
    unfold _should_update. rewrite Hl, Hi. rewrite Z.geb_le. lia.
Qed.

Lemma unique_keys_pass tk s :
  NoDup (map key (current_data s)) ->
  NoDup (map key (current_data (state_of (loop_body tk s)))).
Proof.
  intros H. destruct (pass_sorts tk s) as [Hf|[Hs|Hn]].
  - destruct (failing_pass tk s Hf) as (evs & -> & _).
    unfold state_of. cbn [fst snd].
    destruct (error_count s + 1 >=? max_errors s); cbn;
      apply add_all_keeps_unique; exact H.
  - destruct (succeeding_pass tk s Hs) as (evs & -> & _).
    unfold state_of. cbn [fst snd]. rewrite clean_current.
    apply filter_keeps_unique_keys. cbn. apply add_all_keeps_unique. exact H.
  - rewrite (idle_pass tk s Hn). unfold state_of. cbn [fst snd].
    rewrite clean_current. apply filter_keeps_unique_keys. exact H.
Qed.

(** X11: the supersession invariant is kept by everything that touches
    the collection: if no two resident records share a (source,
    data_type), the same holds after any sequence of [add_data] and
    [_clean_expired_data] calls and after any run of the update loop,
    whatever its fetch steps add and whether they return or raise. *)
Theorem unique_keys_invariant (s : BaseInput)
    (H : NoDup (map key (current_data s))) :
  (forall ops, NoDup (map key (current_data (apply_ops ops s)))) /\
  (forall ticks, NoDup (map key (current_data (state_of (_update_loop ticks s))))).
Proof.
  split.
  - intros ops. revert s H. induction ops as [|op ops IH]; intros s H; [exact H|].
    cbn [apply_ops fold_left]. apply IH.
    destruct op as [d|now]; cbn [apply_op].
    + apply add_data_keeps_unique. exact H.
    + rewrite clean_current. apply filter_keeps_unique_keys. exact H.
  - intros ticks. revert s H. induction ticks as [|tk rest IH]; intros s H.
    + cbn [_update_loop]. destruct (running s); exact H.
    + destruct (running s) eqn:Hrun;
        [|rewrite update_loop_stopped by exact Hrun; exact H].
      pose proof (unique_keys_pass tk s H) as Hpass.
      destruct (pass_control tk s) as (b & s1 & ev1 & Hbody & _).
      rewrite Hbody in Hpass. unfold state_of in Hpass. cbn [fst snd] in Hpass.
      destruct b.
      * rewrite (update_loop_break tk rest s s1 ev1 Hrun Hbody). exact Hpass.
      * rewrite (update_loop_continue tk rest s s1 ev1 Hrun Hbody).
        apply (IH s1 Hpass).
Qed.

Lemma unique_keys_invariant_witness :
  NoDup (map key (current_data time_state)) /\
  NoDup (map key (current_data
     (state_of (_update_loop [good_tick 0; bad_tick 40; good_tick 80]
                  (after start time_state))))).
Proof.
  split; [repeat constructor; intros []|].
  apply (proj2 (unique_keys_invariant (after start time_state)
                  ltac:(repeat constructor; intros []))).
Defined.

Lemma fetch_due_after_pass_witness :
  failing_tick flaky_input (bad_tick 0) = true /\
  _should_update 1 (state_of (loop_body (bad_tick 0) flaky_input)) = true.
Proof.
  split; [reflexivity|].
  apply (proj1 (fetch_due_after_pass (bad_tick 0) flaky_input) eq_refl 1).
  cbn. lia.
Defined.

(** *** The identifier of a record *)

Lemma str_of_int_injective a b : str_of_int a = str_of_int b -> a = b.
Proof.
  unfold str_of_int. intros H.
  assert (Hnn : forall z, Z.to_int z <> Decimal.Pos Decimal.Nil /\
                          Z.to_int z <> Decimal.Neg Decimal.Nil).
  { intros [|p|p]; cbn; split; try discriminate; intros Hp; injection Hp as Hp;
      exact (DecimalPos.Unsigned.to_uint_nonnil p Hp). }
  assert (Hi : Some (Z.to_int a) = Some (Z.to_int b)).
  { rewrite <- (DecimalString.NilZero.isi (Z.to_int a)),
            <- (DecimalString.NilZero.isi (Z.to_int b));
      try apply Hnn. rewrite H. reflexivity. }
  injection Hi as Hi.
  rewrite <- (DecimalZ.of_to a), <- (DecimalZ.of_to b), Hi. reflexivity.
Qed.

Lemma cut_at_underscore a : forall b r1 r2,
  occurs "_" a = false -> occurs "_" b = false ->
  a ++ String "_" r1 = b ++ String "_" r2 ->
  a = b /\ r1 = r2.
Proof.
  induction a as [|c a IH]; intros [|c' b] r1 r2 Ha Hb H; cbn in *.
  - injection H as ->. auto.
  - injection H as <- _. cbn in Hb. discriminate.
  - injection H as -> _. cbn in Ha. discriminate.
  - injection H as -> H. apply orb_false_iff in Ha, Hb.
    destruct (IH b r1 r2) as [-> ->]; tauto.
Qed.

(** X12: the identifier of a record holds its source, its kind and the
    whole seconds of its timestamp.  When neither the source nor the kind
    of two records contains an underscore, their identifiers are equal
    exactly when source, kind and the second of the timestamp are equal;
    so two records of one source and kind created within the same second
    carry one identifier, and with underscores even records of different
    (source, data_type) can. *)
Theorem id_keeps_whole_seconds (units : Z) (d1 d2 : InputData)
    (Hs1 : occurs "_" (source d1) = false) (Ht1 : occurs "_" (data_type d1) = false)
    (Hs2 : occurs "_" (source d2) = false) (Ht2 : occurs "_" (data_type d2) = false) :
  (InputData_id units d1 = InputData_id units d2 <->
   source d1 = source d2 /\ data_type d1 = data_type d2 /\
   Z.quot (timestamp d1) units = Z.quot (timestamp d2) units) /\
  (1 < units ->
   exists a b, key a = key b /\ timestamp a <> timestamp b /\
               InputData_id units a = InputData_id units b) /\
  (exists a b, key a <> key b /\ InputData_id units a = InputData_id units b).
Proof.
  split; [|split].
  - unfold InputData_id. split.
    + intros H. cbn in H.
      destruct (cut_at_underscore _ _ _ _ Hs1 Hs2 H) as [Hs H'].
      destruct (cut_at_underscore _ _ _ _ Ht1 Ht2 H') as [Ht Hn].
      apply str_of_int_injective in Hn. auto.
    + intros (-> & -> & ->). reflexivity.
  - intros Hu.
    exists (mkInputData "gps" "position" "" 0 5 None),
           (mkInputData "gps" "position" "" 1 5 None).
    split; [reflexivity|]. split; [discriminate|].
    unfold InputData_id. cbn [source data_type timestamp].
    rewrite (Z.quot_small 1 units) by lia. rewrite Z.quot_0_l by lia. reflexivity.
  - exists (mkInputData "gps_raw" "fix" "" 100 5 None),
           (mkInputData "gps" "raw_fix" "" 100 5 None).
    split; [discriminate|reflexivity].
Qed.

Lemma id_keeps_whole_seconds_witness :
  InputData_id 1000000 (mkInputData "gps" "position" "a" 1500000 5 None)
    = "gps_position_1" /\
  (InputData_id 1000000 (mkInputData "gps" "position" "a" 1500000 5 None)
   = InputData_id 1000000 (mkInputData "gps" "position" "b" 1900000 5 None) <->
   "gps" = "gps" /\ "position" = "position" /\
   Z.quot 1500000 1000000 = Z.quot 1900000 1000000).
Proof.
  split; [reflexivity|].
  exact (proj1 (id_keeps_whole_seconds 1000000
                  (mkInputData "gps" "position" "a" 1500000 5 None)
                  (mkInputData "gps" "position" "b" 1900000 5 None)
                  eq_refl eq_refl eq_refl eq_refl)).
Defined.

(** ** Further properties of display_controller.py *)

(** *** Lines of a text *)

Lemma split_lines_nonempty text : split_lines text <> [].
Proof.
  destruct text as [|c r]; cbn; [discriminate|].
  destruct (Ascii.eqb c newline); [discriminate|].
  destruct (split_lines r); discriminate.
Qed.

Lemma join_lines_cons l ls :
  ls <> [] -> join_lines (l :: ls) = l ++ String newline (join_lines ls).
Proof. destruct ls; [contradiction|reflexivity]. Qed.

Lemma join_lines_first c l ls : join_lines (String c l :: ls) = String c (join_lines (l :: ls)).
Proof. destruct ls; reflexivity. Qed.

Lemma split_lines_concat text more :
  split_lines (text ++ String newline more)
  = (split_lines text ++ split_lines more)%list.
Proof.
  induction text as [|c r IH].
  - reflexivity.
  - cbn [append split_lines]. destruct (Ascii.eqb c newline).
    + rewrite IH. reflexivity.
    + rewrite IH. pose proof (split_lines_nonempty r) as Hne.
      destruct (split_lines r) as [|l ls]; [contradiction|reflexivity].
Qed.

(** X13: [split] and [join] on the newline are inverse on every text:
    joining the lines of a text gives the text back; the list of lines is
    never empty, no line contains a newline, a text without a newline is
    its own single line, and the lines of [a], newline, [b] are the lines
    of [a] followed by the lines of [b]. *)
Theorem split_lines_round_trip (text : string) :
  join_lines (split_lines text) = text /\
  split_lines text <> [] /\
  (forall line, In line (split_lines text) -> occurs newline line = false) /\
  (occurs newline text = false -> split_lines text = [text]) /\
  (forall more, split_lines (text ++ String newline more)
                = (split_lines text ++ split_lines more)%list).
Proof.
  split; [|split; [apply split_lines_nonempty|split; [|split]]].
  - induction text as [|c r IH]; [reflexivity|].
    cbn [split_lines]. destruct (Ascii.eqb_spec c newline) as [->|Hc].
    + rewrite join_lines_cons by apply split_lines_nonempty.
      rewrite IH. reflexivity.
    + pose proof (split_lines_nonempty r) as Hne.
      destruct (split_lines r) as [|l ls]; [contradiction|].
      rewrite join_lines_first, IH. reflexivity.
  - induction text as [|c r IH]; intros line Hin.
    + destruct Hin as [<-|[]]. reflexivity.
    + cbn [split_lines] in Hin. destruct (Ascii.eqb_spec c newline) as [->|Hc].
      * destruct Hin as [<-|Hin]; [reflexivity|auto].
      * pose proof (split_lines_nonempty r) as Hne.
        destruct (split_lines r) as [|l ls]; [contradiction|].
        destruct Hin as [<-|Hin].
        -- cbn. rewrite (IH l (or_introl eq_refl)).
           destruct (Ascii.eqb_spec c newline); [contradiction|reflexivity].
        -- apply IH. right. exact Hin.
  - induction text as [|c r IH]; intros Hno; [reflexivity|].
    cbn in Hno. apply orb_false_iff in Hno. destruct Hno as [Hc Hr].
    cbn [split_lines]. rewrite Hc, (IH Hr). reflexivity.
  - intros more. apply split_lines_concat.
Qed.

Lemma split_lines_round_trip_witness :
  occurs newline "Hello World!" = false /\
  split_lines "Hello World!" = ["Hello World!"].
Proof.
  split; [reflexivity|].
  exact (proj1 (proj2 (proj2 (proj2 (split_lines_round_trip "Hello World!")))) eq_refl).
Defined.

(** *** What _draw_text draws *)

Lemma enumerate_lines {A} (l : list A) : forall k,
  map snd (enumerate_from k l) = l.
Proof. induction l as [|x l IH]; intros k; cbn; [|rewrite IH]; reflexivity. Qed.

Lemma draw_text_texts c dev text font position center :
  map drawn_text (_draw_text c dev text font position center)
  = map Some (split_lines text).
Proof.
  unfold _draw_text.
  destruct center, position as [[px py]|]; rewrite map_map;
    rewrite <- (enumerate_lines (split_lines text) 0) at 2;
    rewrite map_map; apply map_ext; intros [i line]; reflexivity.
Qed.

(** X14: whatever the position and the centring, [_draw_text] makes one
    [draw.text] call per line of the text, in order, with the line as its
    text, so it always draws at least once (an empty text is one empty
    line); without a position and without centring, line [i] is drawn at
    the top-left corner, [15 * i] pixels down. *)
Theorem draw_text_draws_lines (c : DisplayController) (dev : Device)
    (text : string) (font : Font) (position : option (Z * Z)) (center : bool) :
  map drawn_text (_draw_text c dev text font position center)
    = map Some (split_lines text) /\
  _draw_text c dev text font position center <> [] /\
  (forall i line,
     nth_error (split_lines text) i = Some line ->
     nth_error (_draw_text c dev text font None false) i
       = Some (DrawText 0 (15 * Z.of_nat i) line font 255)).
Proof.
  pose proof (draw_text_texts c dev text font position center) as Htexts.
  split; [exact Htexts|]. split.
  - intros Hnil. rewrite Hnil in Htexts. cbn in Htexts.
    destruct (split_lines text) eqn:Hs; [|discriminate].
    exact (split_lines_nonempty text Hs).
  - intros i line Hline. unfold _draw_text.
    rewrite nth_error_enumerate, Hline. cbn [option_map].
    replace (0 + (0 + Z.of_nat i) * line_height) with (15 * Z.of_nat i)
      by (unfold line_height; lia).
    reflexivity.
Qed.

Lemma draw_text_draws_lines_witness :
  nth_error (split_lines ("a" ++ String newline "b")) 1 = Some "b" /\
  nth_error (_draw_text controller panel ("a" ++ String newline "b") font_small None false) 1
    = Some (DrawText 0 15 "b" font_small 255).
Proof.
  split; [reflexivity|].
  exact (proj2 (proj2 (draw_text_draws_lines controller panel
                         ("a" ++ String newline "b") font_small None false))
           1%nat "b" eq_refl).
Defined.

Lemma centred_call c dev text font i x y line f fl :
  nth_error (_draw_text c dev text font None true) i = Some (DrawText x y line f fl) ->
  nth_error (split_lines text) i = Some line /\
  x = (width c - text_width dev font line) / 2 /\
  y = (height c - Z.of_nat (List.length (split_lines text)) * 15) / 2
      + Z.of_nat i * 15 /\
  (i < List.length (split_lines text))%nat /\
  f = font.
Proof.
  unfold _draw_text. rewrite nth_error_enumerate.
  destruct (nth_error (split_lines text) i) as [l|] eqn:Hl; [|discriminate].
  cbn [option_map]. unfold line_height. intros H. injection H as <- <- <- <- _.
  repeat split.
  apply nth_error_Some. rewrite Hl. discriminate.
Qed.

Lemma half_bounds n : 2 * (n / 2) <= n <= 2 * (n / 2) + 1.
Proof.
  pose proof (Z.mod_pos_bound n 2 ltac:(lia)).
  pose proof (Z.div_mod n 2 ltac:(lia)). lia.
Qed.

(** X15: centred text is laid out in rows of fifteen pixels and nothing
    is wrapped or moved to make it fit.  All rows lie between the top and
    the bottom edge exactly when fifteen pixels per line fit into the
    height, which on the 64 pixel display means at most four lines (a
    fifth line pushes the first row above the top edge).  Across, the
    measured width is centred, not the ink: with the measured box
    [(x0, y0, x1, y1)] of a line, the ink starts [x0] to the right of the
    drawing position, its left margin exceeds its right margin by
    [2 * x0] or one less, and it lies between the left and the right edge
    exactly when [x0] is at most the half of the free width on either
    side; for [x0 = 0] that is when the measured width is at most the
    display width. *)
Theorem centred_rows_and_ink (c : DisplayController) (dev : Device)
    (text : string) (font : Font) :
  ((forall i x y line f fl,
      nth_error (_draw_text c dev text font None true) i
        = Some (DrawText x y line f fl) ->
      0 <= y /\ y + 15 <= height c)
   <-> 15 * Z.of_nat (List.length (split_lines text)) <= height c) /\
  (height c = 64 ->
   ((forall i x y line f fl,
       nth_error (_draw_text c dev text font None true) i
         = Some (DrawText x y line f fl) ->
       0 <= y /\ y + 15 <= height c)
    <-> (List.length (split_lines text) <= 4)%nat)) /\
  (forall i x y line f fl x0 y0 x1 y1,
     nth_error (_draw_text c dev text font None true) i
       = Some (DrawText x y line f fl) ->
     textbbox dev f line = (x0, y0, x1, y1) ->
     ink_box dev (DrawText x y line f fl) = Some (x + x0, y + y0, x + x1, y + y1) /\
     ((x + x0) - (width c - (x + x1)) = 2 * x0 \/
      (x + x0) - (width c - (x + x1)) = 2 * x0 - 1) /\
     (0 <= x + x0 /\ x + x1 <= width c
      <-> - ((width c - (x1 - x0)) / 2) <= x0
          /\ x0 <= (width c - (x1 - x0)) - (width c - (x1 - x0)) / 2) /\
     (x0 = 0 -> (0 <= x + x0 /\ x + x1 <= width c <-> x1 - x0 <= width c))).
Proof.
  assert (Hv : (forall i x y line f fl,
      nth_error (_draw_text c dev text font None true) i
        = Some (DrawText x y line f fl) ->
      0 <= y /\ y + 15 <= height c)
   <-> 15 * Z.of_nat (List.length (split_lines text)) <= height c).
  { pose proof (half_bounds (height c - Z.of_nat (List.length (split_lines text)) * 15)).
    split.
    - intros Hall.
      pose proof (split_lines_nonempty text) as Hne.
      destruct (split_lines text) as [|l0 ls] eqn:Hs; [contradiction|].
      assert (H0 : nth_error (_draw_text c dev text font None true) 0 =
                   Some (DrawText ((width c - text_width dev font l0) / 2)
                           ((height c - Z.of_nat (List.length (l0 :: ls)) * 15) / 2
                            + Z.of_nat 0 * 15) l0 font 255)).
      { unfold _draw_text. rewrite nth_error_enumerate, Hs. reflexivity. }
      apply Hall in H0. lia.
    - intros Hfit i x y line f fl Hnth.
      apply centred_call in Hnth. destruct Hnth as (_ & _ & -> & Hi & _). lia. }
  split; [exact Hv|]. split.
  - intros H64. rewrite Hv, H64. lia.
  - intros i x y line f fl x0 y0 x1 y1 Hnth Hbox.
    apply centred_call in Hnth. destruct Hnth as (_ & Hx & _ & _ & ->).
    unfold text_width in Hx. rewrite Hbox in Hx.
    pose proof (half_bounds (width c - (x1 - x0))) as Hh.
    split; [cbn [ink_box]; rewrite Hbox; reflexivity|].
    repeat split; intros; lia.
Qed.

Lemma centred_rows_and_ink_witness :
  nth_error (_draw_text controller panel "Hello World!" font_medium None true) 0
    = Some (DrawText 28 24 "Hello World!" font_medium 255) /\
  textbbox panel font_medium "Hello World!" = (0, 0, 72, 10) /\
  ink_box panel (DrawText 28 24 "Hello World!" font_medium 255)
    = Some (28 + 0, 24 + 0, 28 + 72, 24 + 10).
Proof.
  split; [reflexivity|]. split; [reflexivity|].
  exact (proj1 (proj2 (proj2 (centred_rows_and_ink controller panel "Hello World!"
                                font_medium))
                  0%nat 28 24 "Hello World!" font_medium 255 0 0 72 10
                  eq_refl eq_refl)).
Defined.

(** *** Brightness *)

(** X16: [set_brightness] clamps: the stored brightness is always between
    0 and 255, it is the requested value when that lies in the range, 0
    below it and 255 above it; the call paints nothing and touches no
    task. *)
Theorem set_brightness_clamps (b : Z) (w : World) :
  0 <= brightness (self (set_brightness b w)) <= 255 /\
  (0 <= b <= 255 -> brightness (self (set_brightness b w)) = b) /\
  (b < 0 -> brightness (self (set_brightness b w)) = 0) /\
  (255 < b -> brightness (self (set_brightness b w)) = 255) /\
  screen (set_brightness b w) = screen w /\
  tasks (set_brightness b w) = tasks w /\
  current_task (self (set_brightness b w)) = current_task (self w).
Proof. cbn. repeat split; lia. Qed.

(** *** The life of a timed display task *)

Lemma cancel_current_clock w : clock (cancel_current w) = clock w.
Proof.
  unfold cancel_current. destruct (current_task (self w)) as [h|]; [|reflexivity].
  destruct (nth_error (tasks w) h) as [t|]; [|reflexivity].
  destruct (negb (task_done t)); reflexivity.
Qed.

Lemma show_timed_task w text fs pos d ce :
  d <> 0 ->
  nth_error (tasks (show_text text fs pos (Some d) ce w)) (List.length (tasks w))
    = Some (mkDisplayTask text fs pos d ce Created false) /\
  screen (show_text text fs pos (Some d) ce w) = screen w /\
  clock (show_text text fs pos (Some d) ce w) = clock w /\
  self (show_text text fs pos (Some d) ce w)
    = set_current_task (Some (List.length (tasks w))) (self w).
Proof.
  intros Hd. unfold show_text.
  assert (Ht : truthy (Some d) = true).
  { cbn. destruct (Z.eqb_spec d 0); [contradiction|reflexivity]. }
  rewrite Ht. cbn [tasks set_self set_tasks screen clock self].
  rewrite cancel_current_length, cancel_current_screen, cancel_current_clock,
    cancel_current_self.
  repeat split.
  rewrite <- (cancel_current_length w).
  rewrite nth_error_app2, Nat.sub_diag by lia. reflexivity.
Qed.

(** The first time the event loop resumes the task of a timed
    [show_text], the text is painted and the task goes to sleep. *)
Lemma timed_show_first_run w text fs pos d ce :
  d <> 0 ->
  screen (run_task (List.length (tasks w)) (show_text text fs pos (Some d) ce w))
    = rendering (self w) text fs pos ce /\
  nth_error
    (tasks (run_task (List.length (tasks w)) (show_text text fs pos (Some d) ce w)))
    (List.length (tasks w))
    = Some (mkDisplayTask text fs pos d ce (Sleeping (clock w + d)) false) /\
  clock (run_task (List.length (tasks w)) (show_text text fs pos (Some d) ce w))
    = clock w /\
  self (run_task (List.length (tasks w)) (show_text text fs pos (Some d) ce w))
    = set_current_task (Some (List.length (tasks w))) (self w).
Proof.
  intros Hd. destruct (show_timed_task w text fs pos d ce Hd) as (Hn & Hs & Hc & Hself).
  unfold run_task. rewrite Hn. cbn [task_done t_state t_must_cancel t_text
    t_font_size t_position t_center t_duration].
  cbn [_render_text set_screen set_tasks tasks screen clock self].
  rewrite nth_error_update_nth, Nat.eqb_refl, Hn, Hc, Hself.
  repeat split.
Qed.

(** X17: a [show_text] with a duration paints nothing by itself.  Its
    text reaches the screen when the event loop first resumes its task;
    resumed again before [duration] seconds have passed the task changes
    nothing, and resumed at or after that time it clears the display. *)
Theorem timed_show_life_cycle (w : World) (text fs : string)
    (pos : option (Z * Z)) (d : Z) (ce : bool) (Hd : d <> 0) :
  screen (show_text text fs pos (Some d) ce w) = screen w /\
  screen (run_task (List.length (tasks w)) (show_text text fs pos (Some d) ce w))
    = rendering (self w) text fs pos ce /\
  (forall dt,
     screen (run_task (List.length (tasks w))
               (advance dt
                  (run_task (List.length (tasks w))
                     (show_text text fs pos (Some d) ce w))))
     = if (d <=? Z.of_N dt)%Z then cleared (self w)
       else rendering (self w) text fs pos ce).
Proof.
  destruct (show_timed_task w text fs pos d ce Hd) as (_ & Hs & _).
  destruct (timed_show_first_run w text fs pos d ce Hd) as (Hscr & Hn & Hc & Hself).
  split; [exact Hs|]. split; [exact Hscr|].
  intros dt.
  set (W := run_task (List.length (tasks w)) (show_text text fs pos (Some d) ce w)) in *.
  unfold run_task. change (tasks (advance dt W)) with (tasks W). rewrite Hn.
  cbn [task_done t_state t_must_cancel].
  change (clock (advance dt W)) with (clock W + Z.of_N dt). rewrite Hc.
  destruct (Z.leb_spec d (Z.of_N dt)) as [Hle|Hgt].
  - assert (Hge : (clock w + Z.of_N dt >=? clock w + d) = true)
      by (apply Z.geb_le; lia).
    rewrite Hge.
    change (screen (set_tasks
                      (update_nth (List.length (tasks w)) (set_state Finished)
                         (tasks (clear (advance dt W))))
                      (clear (advance dt W))))
      with (cleared (self W)).
    rewrite Hself. reflexivity.
  - assert (Hge : (clock w + Z.of_N dt >=? clock w + d) = false).
    { destruct (Z.geb_spec (clock w + Z.of_N dt) (clock w + d)); [lia|reflexivity]. }
    rewrite Hge. exact Hscr.
Qed.

Lemma timed_show_life_cycle_witness :
  (2 <> 0) /\
  screen (run_task 0 (advance 3 (run_task 0
            (show_text "A" "medium" None (Some 2) true (initial_world controller)))))
    = Painted [DrawRectangle (0, 0, 127, 63) 0 0].
Proof.
  split; [discriminate|].
  exact (proj2 (proj2 (timed_show_life_cycle (initial_world controller)
                         "A" "medium" None 2 true ltac:(discriminate))) 3%N).
Defined.

(** *** Shutdown, superseded tasks and the single live display task *)

Lemma cleared_same_panel c c' : same_panel c c' -> cleared c' = cleared c.
Proof. intros (Hd & _). unfold cleared. rewrite Hd. reflexivity. Qed.

(** X18: after [shutdown] the display is cleared and stays cleared:
    whatever was shown or scheduled before, no step of the event loop
    paints again, because every task is finished or cancelled. *)
Theorem shutdown_is_final (c : DisplayController) (hist post : list Action)
    (Hpost : forallb is_loop_step post = true) :
  screen (run (hist ++ AShutdown :: post) (initial_world c)) = cleared c /\
  all_dead (run (hist ++ AShutdown :: post) (initial_world c)).
Proof.
  rewrite run_app.
  change (run (AShutdown :: post) ?w) with (run post (shutdown w)).
  set (w := run hist (initial_world c)).
  assert (Hinv : only_current_alive w)
    by (apply run_only_current, initial_only_current).
  assert (Hdead : all_dead (shutdown w)) by exact (cancel_current_all_dead w Hinv).
  destruct (loop_steps_all_dead post (shutdown w) Hpost Hdead) as (H1 & H2 & _).
  split; [|exact H1].
  rewrite H2. cbn. rewrite cancel_current_self.
  apply cleared_same_panel. apply (run_same_panel hist (initial_world c)).
Qed.

Lemma shutdown_is_final_witness :
  forallb is_loop_step [ATick 5; ARun 0] = true /\
  screen (run ([show_a; ARun 0] ++ AShutdown :: [ATick 5; ARun 0])
            (initial_world controller))
    = Painted [DrawRectangle (0, 0, 127, 63) 0 0].
Proof.
  split; [reflexivity|].
  exact (proj1 (shutdown_is_final controller [show_a; ARun 0] [ATick 5; ARun 0] eq_refl)).
Defined.



(** X20: a duration of zero is no duration: the text is painted at once,
    no task is created, and the text stays through all later steps of the
    event loop. *)
Theorem zero_duration_is_permanent (c : DisplayController) (hist post : list Action)
    (text fs : string) (pos : option (Z * Z)) (ce : bool)
    (Hpost : forallb is_loop_step post = true) :
  screen (run (hist ++ AShow text fs pos (Some 0) ce :: post) (initial_world c))
    = rendering c text fs pos ce /\
  List.length (tasks (run (hist ++ [AShow text fs pos (Some 0) ce]) (initial_world c)))
    = List.length (tasks (run hist (initial_world c))).
Proof.
  split.
  - rewrite run_app.
    change (run (AShow text fs pos (Some 0) ce :: post) ?w)
      with (run post (show_text text fs pos None ce w)).
    apply show_untimed; [| |exact Hpost].
    + apply run_only_current, initial_only_current.
    + apply (run_same_panel hist (initial_world c)).
  - rewrite run_app.
    change (run [AShow text fs pos (Some 0) ce] ?w)
      with (_render_text text fs pos ce (cancel_current w)).
    cbn [_render_text set_screen tasks]. apply cancel_current_length.
Qed.

Lemma zero_duration_is_permanent_witness :
  forallb is_loop_step [ATick 9; ARun 0] = true /\
  screen (run ([] ++ AShow "B" "medium" None (Some 0) true :: [ATick 9; ARun 0])
            (initial_world controller))
    = Painted [DrawText 61 24 "B" font_medium 255].
Proof.
  split; [reflexivity|].
  exact (proj1 (zero_duration_is_permanent controller [] [ATick 9; ARun 0]
                  "B" "medium" None true eq_refl)).
Defined.

Lemma pre_empted_after_cancel h txt w :
  (exists t, nth_error (tasks w) h = Some t /\ pre_empted t /\ t_text t = txt) ->
  exists t, nth_error (tasks (cancel_current w)) h = Some t /\
            pre_empted t /\ t_text t = txt.
Proof.
  intros (t & Ht & Hp & Htxt). unfold cancel_current.
  destruct (current_task (self w)) as [hc|]; [|eauto].
  destruct (nth_error (tasks w) hc) as [tc|] eqn:Hc; [|eauto].
  destruct (negb (task_done tc)); [|eauto].
  cbn [tasks set_tasks]. rewrite nth_error_update_nth.
  destruct (Nat.eqb_spec hc h) as [->|_]; [|eauto].
  rewrite Ht. cbn [option_map]. eexists. split; [reflexivity|].
  destruct Hp as (_ & Hst). unfold pre_empted. cbn. auto.
Qed.

Lemma pre_empted_after_show h txt w text fs pos dur ce :
  (exists t, nth_error (tasks (cancel_current w)) h = Some t /\
             pre_empted t /\ t_text t = txt) ->
  exists t, nth_error (tasks (show_text text fs pos dur ce w)) h = Some t /\
            pre_empted t /\ t_text t = txt.
Proof.
  intros (t & Ht & Hp & Htxt). unfold show_text.
  destruct (truthy dur); cbn [tasks set_self set_tasks _render_text set_screen].
  - exists t. split; [|split; assumption].
    rewrite nth_error_app1; [exact Ht|].
    apply nth_error_Some. rewrite Ht. discriminate.
  - eauto.
Qed.

Lemma pre_empted_step h txt w a :
  (exists t, nth_error (tasks w) h = Some t /\ pre_empted t /\ t_text t = txt) ->
  exists t, nth_error (tasks (step w a)) h = Some t /\
            pre_empted t /\ t_text t = txt.
Proof.
  intros H.
  destruct a as [text fs pos dur ce| | b | | h' | dt]; cbn [step]; try exact H.
  - apply pre_empted_after_show, pre_empted_after_cancel, H.
  - apply (pre_empted_after_cancel h txt w H).
  - destruct H as (t & Ht & Hp & Htxt). unfold run_task.
    destruct (nth_error (tasks w) h') as [t'|] eqn:Ht'; [|eauto].
    destruct (task_done t') eqn:Hdone; [eauto|].
    destruct (Nat.eqb_spec h' h) as [->|Hne].
    + rewrite Ht in Ht'. injection Ht' as <-.
      destruct Hp as (Hmc & Hst). rewrite Hmc.
      cbn [tasks set_tasks]. rewrite nth_error_update_nth, Nat.eqb_refl, Ht.
      cbn [option_map]. eexists. split; [reflexivity|].
      unfold pre_empted. cbn. auto.
    + assert (Hkeep : forall f,
                nth_error (update_nth h' f (tasks w)) h = Some t).
      { intros f. rewrite nth_error_update_nth.
        destruct (Nat.eqb_spec h' h); [contradiction|exact Ht]. }
      destruct (t_must_cancel t');
        [cbn [tasks set_tasks]; rewrite Hkeep; eauto|].
      destruct (t_state t') as [|dl| |]; [| |eauto|eauto].
      * cbn [tasks set_tasks _render_text set_screen]. rewrite Hkeep. eauto.
      * destruct (clock w >=? dl)%Z; [|eauto].
        cbn [tasks set_tasks clear set_screen]. rewrite Hkeep. eauto.
Qed.

Lemma pre_empted_run h txt acts : forall w,
  (exists t, nth_error (tasks w) h = Some t /\ pre_empted t /\ t_text t = txt) ->
  exists t, nth_error (tasks (run acts w)) h = Some t /\
            pre_empted t /\ t_text t = txt.
Proof.
  induction acts as [|a acts IH]; intros w H; [exact H|].
  change (run (a :: acts) w) with (run acts (step w a)).
  apply IH, pre_empted_step, H.
Qed.

(** X21: a timed [show_text] that is followed by another [show_text]
    before the event loop has resumed its task never paints: through
    everything that happens later its task is only ever waiting with a
    pending cancellation or cancelled, never asleep and never finished,
    so its text was not rendered and its auto-clear never runs. *)
Theorem superseded_before_run_never_paints (w : World)
    (text_a fs_a : string) (pos_a : option (Z * Z)) (d : Z) (ce_a : bool)
    (text_b fs_b : string) (pos_b : option (Z * Z)) (dur_b : option Z) (ce_b : bool)
    (acts : list Action) (Hd : d <> 0) :
  exists t,
    nth_error
      (tasks (run acts (show_text text_b fs_b pos_b dur_b ce_b
                          (show_text text_a fs_a pos_a (Some d) ce_a w))))
      (List.length (tasks w)) = Some t /\
    t_text t = text_a /\
    t_must_cancel t = true /\
    (t_state t = Created \/ t_state t = Cancelled).
Proof.
  destruct (show_timed_task w text_a fs_a pos_a d ce_a Hd) as (Hn & _ & _ & Hself).
  set (w1 := show_text text_a fs_a pos_a (Some d) ce_a w) in *.
  assert (Hc : exists t, nth_error (tasks (cancel_current w1)) (List.length (tasks w))
                           = Some t /\ pre_empted t /\ t_text t = text_a).
  { unfold cancel_current. rewrite Hself. cbn [current_task set_current_task].
    rewrite Hn. cbn [task_done t_state negb tasks set_tasks].
    rewrite nth_error_update_nth, Nat.eqb_refl, Hn. cbn [option_map].
    eexists. split; [reflexivity|]. unfold pre_empted. cbn. auto. }
  destruct (pre_empted_run (List.length (tasks w)) text_a acts
              (show_text text_b fs_b pos_b dur_b ce_b w1)
              (pre_empted_after_show _ _ _ _ _ _ _ _ Hc))
    as (t & Ht & (Hmc & Hst) & Htxt).
  exists t. auto.
Qed.

Lemma superseded_before_run_never_paints_witness :
  (3 <> 0) /\
  exists t,
    nth_error
      (tasks (run [ARun 0; ARun 1; ATick 1; ARun 0]
                (show_text "12:30 PM" "medium" None (Some 3) true
                   (show_text "Hello World!" "medium" None (Some 3) true
                      (initial_world controller)))))
      0 = Some t /\
    t_text t = "Hello World!" /\
    t_must_cancel t = true /\
    (t_state t = Created \/ t_state t = Cancelled).
Proof.
  split; [discriminate|].
  exact (superseded_before_run_never_paints (initial_world controller)
           "Hello World!" "medium" None 3 true "12:30 PM" "medium" None (Some 3) true
           [ARun 0; ARun 1; ATick 1; ARun 0] ltac:(discriminate)).
Defined.

(** *** Notifications and status lines *)

(** X22: a notification is painted, when the event loop first resumes its
    task, as the lines of the title followed by the lines of the message,
    in the small font and centred; a status is painted the same way as
    the lines of the status followed by those of the details, and as the
    status alone when the details are missing or empty. *)
Theorem notification_layout (w : World) (dev : Device) (first second : string)
    (d : Z) (Hd : d <> 0) (Hdev : device (self w) = Some dev) :
  (exists ops,
     screen (run_task (List.length (tasks w))
               (show_notification first second (Some d) w)) = Painted ops /\
     map drawn_text ops = map Some (split_lines first ++ split_lines second)) /\
  (exists ops,
     screen (run_task (List.length (tasks w))
               (show_status first (Some second) (Some d) w)) = Painted ops /\
     map drawn_text ops =
       map Some (if String.eqb second "" then split_lines first
                 else split_lines first ++ split_lines second)) /\
  (exists ops,
     screen (run_task (List.length (tasks w))
               (show_status first None (Some d) w)) = Painted ops /\
     map drawn_text ops = map Some (split_lines first)).
Proof.
  assert (Hshow : forall text,
    exists ops,
      screen (run_task (List.length (tasks w))
                (show_text text "small" None (Some d) true w)) = Painted ops /\
      map drawn_text ops = map Some (split_lines text)).
  { intros text.
    destruct (timed_show_first_run w text "small" None d true Hd) as (-> & _).
    unfold rendering. rewrite Hdev. eexists. split; [reflexivity|].
    apply draw_text_texts. }
  split; [|split].
  - unfold show_notification. destruct (Hshow (first ++ String newline second))
      as (ops & H1 & H2).
    exists ops. split; [exact H1|]. rewrite H2, split_lines_concat. reflexivity.
  - unfold show_status. destruct second as [|ch rest].
    + apply Hshow.
    + destruct (Hshow (first ++ String newline (String ch rest))) as (ops & H1 & H2).
      exists ops. split; [exact H1|]. rewrite H2, split_lines_concat. reflexivity.
  - unfold show_status. apply Hshow.
Qed.

Lemma notification_layout_witness :
  (5 <> 0) /\
  exists ops,
    screen (run_task 0 (show_notification "Test Alert" "This is a test" (Some 5)
                          (initial_world controller))) = Painted ops /\
    map drawn_text ops = [Some "Test Alert"; Some "This is a test"].
Proof.
  split; [discriminate|].
  exact (proj1 (notification_layout (initial_world controller) panel
                  "Test Alert" "This is a test" 5 ltac:(discriminate) eq_refl)).
Defined.

(** ** Properties of main.py *)

Lemma show_timed_length w text fs pos d ce :
  d <> 0 ->
  List.length (tasks (show_text text fs pos (Some d) ce w))
  = S (List.length (tasks w)).
Proof.
  intros Hd. unfold show_text.
  assert (Ht : truthy (Some d) = true).
  { cbn. destruct (Z.eqb_spec d 0); [contradiction|reflexivity]. }
  rewrite Ht. cbn [tasks set_self set_tasks].
  rewrite length_app, cancel_current_length. cbn. lia.
Qed.

Lemma superseded_task w text fs pos d ce text' fs' pos' dur' ce' :
  d <> 0 ->
  exists t,
    nth_error (tasks (show_text text' fs' pos' dur' ce'
                        (show_text text fs pos (Some d) ce w)))
      (List.length (tasks w)) = Some t /\
    pre_empted t /\ t_text t = text.
Proof.
  intros Hd.
  destruct (show_timed_task w text fs pos d ce Hd) as (Hn & _ & _ & Hself).
  apply pre_empted_after_show.
  unfold cancel_current. rewrite Hself. cbn [current_task set_current_task].
  rewrite Hn. cbn [task_done t_state negb tasks set_tasks].
  rewrite nth_error_update_nth, Nat.eqb_refl, Hn. cbn [option_map].
  eexists. split; [reflexivity|]. unfold pre_empted. cbn. auto.
Qed.

(** X23: of the texts that [WearableDevice.initialize] and one turn of
    the loop of [WearableDevice.run] ask for, only the last reaches the
    display.  The tasks of the startup message, of "Hello World!" and of
    the time are each superseded before the event loop runs, so through
    everything that follows they are never asleep and never finished;
    the task of the last text paints it when it is first resumed. *)
Theorem demo_turn_shows_only_last (w : World) (time_str date_str : string)
    (acts : list Action) :
  (forall k text,
     nth_error [startup_text; "Hello World!"; time_str ++ String newline date_str] k
       = Some text ->
     exists t,
       nth_error (tasks (run acts (demo_turn time_str date_str (show_startup w))))
         (List.length (tasks w) + k) = Some t /\
       t_text t = text /\ t_must_cancel t = true /\
       (t_state t = Created \/ t_state t = Cancelled)) /\
  screen (run_task (List.length (tasks w) + 3)
            (demo_turn time_str date_str (show_startup w)))
    = rendering (self w) ready_text "medium" None true.
Proof.
  assert (H2 : (2:Z) <> 0) by discriminate.
  assert (H3 : (3:Z) <> 0) by discriminate.
  set (w1 := show_startup w).
  set (w2 := show_text "Hello World!" "medium" None (Some 3) true w1).
  set (w3 := show_time time_str date_str (Some 3) w2).
  assert (L1 : List.length (tasks w1) = S (List.length (tasks w)))
    by (apply show_timed_length; exact H2).
  assert (L2 : List.length (tasks w2) = S (S (List.length (tasks w))))
    by (unfold w2; rewrite show_timed_length by exact H3; rewrite L1; reflexivity).
  assert (L3 : List.length (tasks w3) = S (S (S (List.length (tasks w)))))
    by (unfold w3, show_time; rewrite show_timed_length by exact H3;
        rewrite L2; reflexivity).
  split.
  - intros k text Hk.
    assert (Hgoal : exists t,
      nth_error (tasks (run acts (demo_turn time_str date_str (show_startup w))))
        (List.length (tasks w) + k) = Some t /\ pre_empted t /\ t_text t = text).
    { unfold demo_turn. fold w1. fold w2. fold w3.
      destruct k as [|[|[|k]]]; cbn in Hk; try (destruct k; discriminate);
        injection Hk as <-.
      - rewrite Nat.add_0_r. apply pre_empted_run.
        apply pre_empted_after_show, pre_empted_after_cancel.
        unfold w3, show_time.
        apply pre_empted_after_show, pre_empted_after_cancel.
        unfold w2, w1, show_startup. apply superseded_task. exact H2.
      - replace (List.length (tasks w) + 1)%nat with (List.length (tasks w1)) by lia.
        apply pre_empted_run.
        apply pre_empted_after_show, pre_empted_after_cancel.
        unfold w3, show_time, w2. apply superseded_task. exact H3.
      - replace (List.length (tasks w) + 2)%nat with (List.length (tasks w2)) by lia.
        apply pre_empted_run.
        unfold w3, show_time. apply superseded_task. exact H3. }
    destruct Hgoal as (t & Ht & (Hmc & Hst) & Htxt). exists t. auto.
  - unfold demo_turn. fold w1. fold w2. fold w3.
    replace (List.length (tasks w) + 3)%nat with (List.length (tasks w3)) by lia.
    destruct (timed_show_first_run w3 ready_text "medium" None 3 true H3) as (-> & _).
    apply rendering_same_panel.
    apply (same_panel_trans _ (self w1));
      [exact (step_same_panel w (AShow startup_text "medium" None (Some 2) true))|].
    apply (same_panel_trans _ (self w2));
      [exact (step_same_panel w1 (AShow "Hello World!" "medium" None (Some 3) true))|].
    exact (step_same_panel w2
             (AShow (time_str ++ String newline date_str) "medium" None (Some 3) true)).
Qed.

Lemma demo_turn_shows_only_last_witness :
  nth_error [startup_text; "Hello World!"; "12:30 PM" ++ String newline "01/02/2024"] 1
    = Some "Hello World!" /\
  exists t,
    nth_error (tasks (run [ARun 0; ARun 1; ARun 2; ARun 3; ATick 1]
                        (demo_turn "12:30 PM" "01/02/2024"
                           (show_startup (initial_world controller)))))
      (0 + 1) = Some t /\
    t_text t = "Hello World!" /\ t_must_cancel t = true /\
    (t_state t = Created \/ t_state t = Cancelled).
Proof.
  split; [reflexivity|].
  exact (proj1 (demo_turn_shows_only_last (initial_world controller)
                  "12:30 PM" "01/02/2024" [ARun 0; ARun 1; ARun 2; ARun 3; ATick 1])
           1%nat "Hello World!" eq_refl).
Defined.

(** ** A further property of the reads *)

(** X24: the empty string is no kind.  [get_current_data] with the empty
    string returns the whole collection, records of every kind included,
    as it does without a kind, and [get_latest_data] with the empty
    string returns the record of maximal timestamp among all resident
    records (nothing only when the collection is empty); with a non-empty
    kind only records of that kind are returned. *)
Theorem empty_kind_reads_everything (s : BaseInput) :
  get_current_data (Some "") s = current_data s /\
  get_current_data (Some "") s = get_current_data None s /\
  match get_latest_data "" s with
  | None => current_data s = []
  | Some r => In r (current_data s) /\
              forall x, In x (current_data s) -> timestamp x <= timestamp r
  end /\
  (forall k r, k <> "" -> In r (get_current_data (Some k) s) -> data_type r = k).
Proof.
  split; [reflexivity|]. split; [reflexivity|]. split.
  - unfold get_latest_data. cbn [get_current_data String.eqb].
    destruct (current_data s) as [|x xs]; [reflexivity|].
    destruct (max_by_timestamp_split xs x) as (l1 & l2 & Heq & H1 & H2).
    split; [apply max_by_timestamp_In|].
    intros y Hy. rewrite Heq in Hy. apply in_app_or in Hy.
    destruct Hy as [Hy|[<-|Hy]]; [apply H1 in Hy; lia|lia|auto].
  - intros k r Hk Hin. rewrite kind_filter in Hin by exact Hk.
    apply filter_In in Hin. apply String.eqb_eq. tauto.
Qed.
